(** * The read path of the jokes server: cache, retrying fetch, GET /post

    A shallow embedding of the server file of the repository: the
    process-wide [jokesCache], [isCacheValid], [updateCache], the retry
    loop [fetchJokesFromDB] and the handler of [GET /post].

    One request is modelled in isolation (JavaScript runs each stretch
    between two [await]s to completion).  The data source is an oracle:
    the outcome of the n-th call of [pool.getConnection] since process
    start.  Console output, pool traffic and timers are recorded in a
    chronological trace. *)

From Stdlib Require Import ZArith List String Bool Arith Lia.
Import ListNotations.

Local Open Scope string_scope.
Local Open Scope nat_scope.
Local Open Scope list_scope.

(** ** The fragment of JavaScript values the cache test computes with *)

Module Js.

Inductive value : Type :=
| JBool (b : bool)
| JNull
| JNum (n : Z).

(** ToBoolean: [null], [false] and the number [0] are falsy. *)
Definition truthy (v : value) : bool :=
  match v with
  | JBool b => b
  | JNull => false
  | JNum n => negb (n =? 0)%Z
  end.

(** [a && b]: the left operand when it is falsy, the right one otherwise. *)
Definition and (a b : value) : value :=
  if truthy a then b else a.

(** ToNumber, as the subtraction applies it to its operand. *)
Definition to_number (v : value) : Z :=
  match v with
  | JBool true => 1%Z
  | JBool false => 0%Z
  | JNull => 0%Z
  | JNum n => n
  end.

End Js.

(** ** Constants *)

(** [const CACHE_DURATION = 5 * 60 * 1000;] *)
Definition CACHE_DURATION : Z := 5 * 60 * 1000.

(** [const MAX_RETRIES = 3;] *)
Definition MAX_RETRIES : nat := 3.

(** [const RETRY_DELAY = 1000;] *)
Definition RETRY_DELAY : Z := 1000.

(** ** Errors, console messages and the trace *)

(** [new Error(message)] *)
Record Error : Type := { message : string }.

Definition ERR_CONNECT : Error :=
  {| message := "Error connecting to the database" |}.
Definition ERR_QUERY : Error :=
  {| message := "Error fetching data from the database" |}.
Definition ERR_RETRIES : Error :=
  {| message := "Unable to connect to the database after multiple retries" |}.

Inductive logmsg : Type :=
| LogGetConnectionError            (* 'Error getting database connection:' *)
| LogQueryError                    (* 'Error fetching jokes from the database:' *)
| LogRetrying (attempt max : nat)  (* `Database connection error, retrying (attempt a/m)...` *)
| LogServingFromCache              (* 'Serving from cache' *)
| LogRouteError (e : Error)        (* 'Error in /post route:' *)
| LogServingStale.                 (* 'Database error, serving stale cache' *)

Inductive event : Type :=
| EvGetConnection        (* pool.getConnection(...) is called *)
| EvAcquired             (* its callback receives a connection *)
| EvQuery                (* connection.query('SELECT * FROM jokes', ...) *)
| EvRelease              (* connection.release() *)
| EvSleep (ms : Z)       (* setTimeout(resolve, ms), awaited *)
| EvUpdateCache          (* jokesCache is assigned *)
| EvLog (m : logmsg).    (* console.log / console.error *)

Definition is_get_connection (e : event) : bool :=
  match e with EvGetConnection => true | _ => false end.
Definition is_acquired (e : event) : bool :=
  match e with EvAcquired => true | _ => false end.
Definition is_query (e : event) : bool :=
  match e with EvQuery => true | _ => false end.
Definition is_release (e : event) : bool :=
  match e with EvRelease => true | _ => false end.
Definition is_sleep (e : event) : bool :=
  match e with EvSleep _ => true | _ => false end.
Definition is_update (e : event) : bool :=
  match e with EvUpdateCache => true | _ => false end.

Definition count (p : event -> bool) (evs : list event) : nat :=
  List.length (filter p evs).

Section Server.

(** A row of the [jokes] table.  The server passes rows through
    untouched, so their type is left open. *)
Variable Row : Type.

(** ** The cache *)

(** [let jokesCache = { data: [], lastUpdated: null, isValid: false };]
    [lastUpdated] is [null] ([None]) or a reading of [Date.now()]. *)
Record Cache : Type := {
  data : list Row;
  lastUpdated : option Z;
  isValid : bool
}.

Definition emptyCache : Cache :=
  {| data := []; lastUpdated := None; isValid := false |}.

Definition js_of_stamp (t : option Z) : Js.value :=
  match t with
  | None => Js.JNull
  | Some n => Js.JNum n
  end.

(** [isCacheValid], with [now] the reading of [Date.now()]:
    [jokesCache.isValid && jokesCache.lastUpdated &&
     (Date.now() - jokesCache.lastUpdated) < CACHE_DURATION] *)
Definition isCacheValid (c : Cache) (now : Z) : Js.value :=
  Js.and
    (Js.and (Js.JBool (isValid c)) (js_of_stamp (lastUpdated c)))
    (Js.JBool (now - Js.to_number (js_of_stamp (lastUpdated c))
               <? CACHE_DURATION)%Z).

(** ** The data source and the process state *)

(** What one call of [pool.getConnection] followed, when a connection
    is granted, by one query comes to. *)
Inductive outcome : Type :=
| ConnFail                      (* getConnection calls back with err *)
| QueryFail                     (* connection granted, query calls back with error *)
| QueryOk (results : list Row). (* connection granted, query calls back with results *)

Definition is_failure (o : outcome) : bool :=
  match o with
  | QueryOk _ => false
  | _ => true
  end.

(** The environment: the outcome of the n-th attempt made by the
    process, and the time that attempt takes. *)
Record World : Type := {
  gateway : nat -> outcome;
  latency : nat -> Z
}.

Record State : Type := {
  jokesCache : Cache;
  clock : Z;              (* what Date.now() reads *)
  attempts : nat;         (* calls of pool.getConnection so far *)
  trace : list event      (* oldest first *)
}.

Definition emit (e : event) (s : State) : State :=
  {| jokesCache := jokesCache s; clock := clock s;
     attempts := attempts s; trace := trace s ++ [e] |}.

Definition tick (dt : Z) (s : State) : State :=
  {| jokesCache := jokesCache s; clock := (clock s + dt)%Z;
     attempts := attempts s; trace := trace s |}.

Definition next_attempt (s : State) : State :=
  {| jokesCache := jokesCache s; clock := clock s;
     attempts := S (attempts s); trace := trace s |}.

(** [updateCache(data)]: a fresh object is assigned to [jokesCache]. *)
Definition updateCache (d : list Row) (s : State) : State :=
  emit EvUpdateCache
    {| jokesCache := {| data := d;
                        lastUpdated := Some (clock s);
                        isValid := true |};
       clock := clock s; attempts := attempts s; trace := trace s |}.

(** ** fetchJokesFromDB *)

(** A settled promise. *)
Inductive settled : Type :=
| Resolved (results : list Row)
| Rejected (e : Error).

(** The promise built in the body of the [try]: one
    [pool.getConnection], and on a granted connection one query whose
    callback releases the connection before it looks at [error]. *)
Definition attempt (w : World) (s : State) : State * settled :=
  let n := attempts s in
  let s0 := tick (latency w n) (next_attempt (emit EvGetConnection s)) in
  match gateway w n with
  | ConnFail =>
      (emit (EvLog LogGetConnectionError) s0, Rejected ERR_CONNECT)
  | QueryFail =>
      let s1 := emit EvRelease (emit EvQuery (emit EvAcquired s0)) in
      (emit (EvLog LogQueryError) s1, Rejected ERR_QUERY)
  | QueryOk results =>
      let s1 := emit EvRelease (emit EvQuery (emit EvAcquired s0)) in
      (s1, Resolved results)
  end.

(** The [catch] block of the loop: count, log, wait. *)
Definition on_catch (retries : nat) (s : State) : State :=
  tick RETRY_DELAY
    (emit (EvSleep RETRY_DELAY)
       (emit (EvLog (LogRetrying retries MAX_RETRIES)) s)).

(** [while (retries < MAX_RETRIES) { try { return await ... } catch
    { retries++; ...; await delay } } throw ...].  [fuel] bounds the
    number of loop tests; [None] is running out of it. *)
Fixpoint fetch_loop (fuel retries : nat) (w : World) (s : State)
  : option (State * settled) :=
  match fuel with
  | O => None
  | S fuel' =>
      if retries <? MAX_RETRIES then
        match attempt w s with
        | (s1, Resolved results) => Some (s1, Resolved results)
        | (s1, Rejected _) =>
            fetch_loop fuel' (S retries) w (on_catch (S retries) s1)
        end
      else Some (s, Rejected ERR_RETRIES)
  end.

Definition fetchJokesFromDB (w : World) (s : State)
  : option (State * settled) :=
  fetch_loop (S MAX_RETRIES) 0 w s.

(** ** GET /post *)

Inductive payload : Type :=
| JsonRows (rows : list Row)
| JsonError (error msg : string).

(** What the handler sends: the status (200 unless [res.status] is
    called), the [Cache-Control] header when [res.set] is called, and
    the argument of [res.json]. *)
Record Response : Type := {
  status : nat;
  cacheControl : option string;
  json : payload
}.

Definition HINT_FRESH : string := "public, max-age=300".
Definition HINT_STALE : string := "public, max-age=60".

Definition getPost (w : World) (s : State) : option (State * Response) :=
  if Js.truthy (isCacheValid (jokesCache s) (clock s)) then
    Some (emit (EvLog LogServingFromCache) s,
          {| status := 200; cacheControl := None;
             json := JsonRows (data (jokesCache s)) |})
  else
    match fetchJokesFromDB w s with
    | None => None
    | Some (s1, Resolved jokes) =>
        Some (updateCache jokes s1,
              {| status := 200; cacheControl := Some HINT_FRESH;
                 json := JsonRows jokes |})
    | Some (s1, Rejected error) =>
        let s2 := emit (EvLog (LogRouteError error)) s1 in
        if 0 <? List.length (data (jokesCache s2)) then
          Some (emit (EvLog LogServingStale) s2,
                {| status := 200; cacheControl := Some HINT_STALE;
                   json := JsonRows (data (jokesCache s2)) |})
        else if String.eqb (message error) "Error connecting to the database" then
          Some (s2,
                {| status := 503; cacheControl := None;
                   json := JsonError "Database connection error"
                     "The database is currently unavailable. Please try again later." |})
        else
          Some (s2,
                {| status := 503; cacheControl := None;
                   json := JsonError "Service temporarily unavailable"
                     "Please try again later" |})
    end.

(** ** Vocabulary of the statements *)

(** The state of a process that has just started, at time [now]. *)
Definition initState (now : Z) : State :=
  {| jokesCache := emptyCache; clock := now; attempts := 0; trace := [] |}.

(** The next [MAX_RETRIES] attempts all fail. *)
Definition all_fail (w : World) (s : State) : Prop :=
  forall j, j < MAX_RETRIES -> is_failure (gateway w (attempts s + j)) = true.

(** What one attempt adds to the trace, by outcome. *)
Definition attempt_events (o : outcome) : list event :=
  match o with
  | ConnFail => [EvGetConnection; EvLog LogGetConnectionError]
  | QueryFail =>
      [EvGetConnection; EvAcquired; EvQuery; EvRelease; EvLog LogQueryError]
  | QueryOk _ => [EvGetConnection; EvAcquired; EvQuery; EvRelease]
  end.

Definition attempt_result (o : outcome) : settled :=
  match o with
  | ConnFail => Rejected ERR_CONNECT
  | QueryFail => Rejected ERR_QUERY
  | QueryOk results => Resolved results
  end.

(** [s'] is [s] after the events [evs], none of which writes the cache. *)
Definition reads_only (s s' : State) (evs : list event) : Prop :=
  trace s' = trace s ++ evs /\
  jokesCache s' = jokesCache s /\
  count is_update evs = 0.

(** What a finished run of the loop, entered with [retries = r] in
    state [s], guarantees about its final state [s'], its settlement
    and the events [evs] it added. *)
Definition fetch_post (w : World) (r : nat) (s s' : State)
           (res : settled) (evs : list event) : Prop :=
  reads_only s s' evs /\
  count is_acquired evs = count is_release evs /\
  attempts s' = attempts s + count is_get_connection evs /\
  match res with
  | Resolved results =>
      exists k,
        r + k < MAX_RETRIES /\
        gateway w (attempts s + k) = QueryOk results /\
        (forall j, j < k -> is_failure (gateway w (attempts s + j)) = true) /\
        count is_get_connection evs = S k /\
        count is_sleep evs = k
  | Rejected e =>
      e = ERR_RETRIES /\
      (forall j, r + j < MAX_RETRIES ->
                 is_failure (gateway w (attempts s + j)) = true) /\
      count is_get_connection evs = MAX_RETRIES - r /\
      count is_sleep evs = MAX_RETRIES - r /\
      (MAX_RETRIES <= r -> evs = []) /\
      (r < MAX_RETRIES ->
       exists pre,
         evs = pre ++ [EvLog (LogRetrying MAX_RETRIES MAX_RETRIES);
                       EvSleep RETRY_DELAY])
  end.

(** The four ways through the handler, as a relation between the
    state before, the state after, the response and the events added. *)
Inductive handled (w : World) (s : State)
  : State -> Response -> list event -> Prop :=
| CacheHit :
    Js.truthy (isCacheValid (jokesCache s) (clock s)) = true ->
    handled w s
      (emit (EvLog LogServingFromCache) s)
      {| status := 200; cacheControl := None;
         json := JsonRows (data (jokesCache s)) |}
      [EvLog LogServingFromCache]
| Fetched (s1 : State) (jokes : list Row) (evs : list event) :
    Js.truthy (isCacheValid (jokesCache s) (clock s)) = false ->
    fetchJokesFromDB w s = Some (s1, Resolved jokes) ->
    fetch_post w 0 s s1 (Resolved jokes) evs ->
    handled w s
      (updateCache jokes s1)
      {| status := 200; cacheControl := Some HINT_FRESH;
         json := JsonRows jokes |}
      (evs ++ [EvUpdateCache])
| StaleServed (s1 : State) (evs : list event) :
    Js.truthy (isCacheValid (jokesCache s) (clock s)) = false ->
    fetchJokesFromDB w s = Some (s1, Rejected ERR_RETRIES) ->
    fetch_post w 0 s s1 (Rejected ERR_RETRIES) evs ->
    data (jokesCache s) <> [] ->
    handled w s
      (emit (EvLog LogServingStale)
         (emit (EvLog (LogRouteError ERR_RETRIES)) s1))
      {| status := 200; cacheControl := Some HINT_STALE;
         json := JsonRows (data (jokesCache s)) |}
      (evs ++ [EvLog (LogRouteError ERR_RETRIES); EvLog LogServingStale])
| Unavailable (s1 : State) (evs : list event) :
    Js.truthy (isCacheValid (jokesCache s) (clock s)) = false ->
    fetchJokesFromDB w s = Some (s1, Rejected ERR_RETRIES) ->
    fetch_post w 0 s s1 (Rejected ERR_RETRIES) evs ->
    data (jokesCache s) = [] ->
    handled w s
      (emit (EvLog (LogRouteError ERR_RETRIES)) s1)
      {| status := 503; cacheControl := None;
         json := JsonError "Service temporarily unavailable"
                           "Please try again later" |}
      (evs ++ [EvLog (LogRouteError ERR_RETRIES)]).

End Server.

Arguments data {Row} _.
Arguments lastUpdated {Row} _.
Arguments isValid {Row} _.
Arguments emptyCache {Row}.
Arguments isCacheValid {Row} _ _.
Arguments ConnFail {Row}.
Arguments QueryFail {Row}.
Arguments QueryOk {Row} _.
Arguments is_failure {Row} _.
Arguments gateway {Row} _ _.
Arguments latency {Row} _ _.
Arguments jokesCache {Row} _.
Arguments clock {Row} _.
Arguments attempts {Row} _.
Arguments trace {Row} _.
Arguments emit {Row} _ _.
Arguments tick {Row} _ _.
Arguments next_attempt {Row} _.
Arguments updateCache {Row} _ _.
Arguments Resolved {Row} _.
Arguments Rejected {Row} _.
Arguments attempt {Row} _ _.
Arguments on_catch {Row} _ _.
Arguments fetch_loop {Row} _ _ _ _.
Arguments fetchJokesFromDB {Row} _ _.
Arguments JsonRows {Row} _.
Arguments JsonError {Row} _ _.
Arguments status {Row} _.
Arguments cacheControl {Row} _.
Arguments json {Row} _.
Arguments getPost {Row} _ _.
Arguments initState {Row} _.
Arguments all_fail {Row} _ _.
Arguments attempt_events {Row} _.
Arguments attempt_result {Row} _.
Arguments reads_only {Row} _ _ _.
Arguments fetch_post {Row} _ _ _ _ _ _.
Arguments handled {Row} _ _ _ _ _.

(** ** Requests one after the other *)

(** How the pool is used, read off a trace: a connection is granted
    only when none is held, queried once while held, and released after
    its query; the loop sleeps and the cache is assigned only while no
    connection is held. *)
Inductive pool_state : Type :=
| Idle        (* no connection held *)
| Granted     (* a connection is held and not yet queried *)
| Queried.    (* a connection is held, its query has been issued *)

Definition pool_step (st : pool_state) (e : event) : option pool_state :=
  match e, st with
  | EvAcquired, Idle => Some Granted
  | EvAcquired, _ => None
  | EvQuery, Granted => Some Queried
  | EvQuery, _ => None
  | EvRelease, Queried => Some Idle
  | EvRelease, _ => None
  | EvSleep _, Idle => Some Idle
  | EvSleep _, _ => None
  | EvUpdateCache, Idle => Some Idle
  | EvUpdateCache, _ => None
  | EvGetConnection, Idle => Some Idle
  | EvGetConnection, _ => None
  | EvLog _, _ => Some st
  end.

Fixpoint pool_run (st : pool_state) (evs : list event) : option pool_state :=
  match evs with
  | [] => Some st
  | e :: rest =>
      match pool_step st e with
      | Some st' => pool_run st' rest
      | None => None
      end
  end.

Definition is_conn_error (e : event) : bool :=
  match e with EvLog LogGetConnectionError => true | _ => false end.
Definition is_query_error (e : event) : bool :=
  match e with EvLog LogQueryError => true | _ => false end.

(** The sum of the items of a list of durations. *)
Definition total (gaps : list Z) : Z := fold_right Z.add 0%Z gaps.

Section Requests.

Variable Row : Type.

(** Express calls the handler once per request.  [serve] runs it for a
    sequence of requests that do not overlap: each request arrives
    [gap] milliseconds after the previous answer was sent. *)
Fixpoint serve (w : World Row) (gaps : list Z) (s : State Row)
  : option (State Row * list (Response Row)) :=
  match gaps with
  | [] => Some (s, [])
  | gap :: rest =>
      match getPost w (tick gap s) with
      | None => None
      | Some (s1, r) =>
          match serve w rest s1 with
          | None => None
          | Some (s2, rs) => Some (s2, r :: rs)
          end
      end
  end.

(** The time the attempts number [n], ..., [n + k - 1] take together. *)
Fixpoint latency_sum (w : World Row) (n k : nat) : Z :=
  match k with
  | O => 0%Z
  | S k' => (latency w n + latency_sum w (S n) k')%Z
  end.

(** The entries the cache can hold: the initial one, or one assigned by
    [updateCache]. *)
Definition assigned_or_initial (c : Cache Row) : Prop :=
  c = emptyCache \/
  exists d t, c = {| data := d; lastUpdated := Some t; isValid := true |}.

(** The books of a trace balance: every call of [getConnection] was
    granted or refused, every grant was queried and released, every
    failed attempt was followed by one delay, and [attempts] counts the
    calls. *)
Definition books_balance (s : State Row) : Prop :=
  attempts s = count is_get_connection (trace s) /\
  count is_get_connection (trace s) =
    count is_acquired (trace s) + count is_conn_error (trace s) /\
  count is_query (trace s) = count is_acquired (trace s) /\
  count is_release (trace s) = count is_acquired (trace s) /\
  count is_sleep (trace s) =
    count is_conn_error (trace s) + count is_query_error (trace s).

(** The answers of the handler. *)
Definition answerFromCache (c : Cache Row) : Response Row :=
  {| status := 200; cacheControl := None; json := JsonRows (data c) |}.
Definition answerFresh (jokes : list Row) : Response Row :=
  {| status := 200; cacheControl := Some "public, max-age=300";
     json := JsonRows jokes |}.
Definition answerStale (c : Cache Row) : Response Row :=
  {| status := 200; cacheControl := Some "public, max-age=60";
     json := JsonRows (data c) |}.
Definition answerUnavailable : Response Row :=
  {| status := 503; cacheControl := None;
     json := JsonError "Service temporarily unavailable"
                       "Please try again later" |}.

End Requests.

Arguments serve {Row} _ _ _.
Arguments latency_sum {Row} _ _ _.
Arguments assigned_or_initial {Row} _.
Arguments books_balance {Row} _.
Arguments answerFromCache {Row} _.
Arguments answerFresh {Row} _.
Arguments answerStale {Row} _.
Arguments answerUnavailable {Row}.

(** ** Sample rows, environments and states *)

(** The two columns the front end reads from a row. *)
Record Joke : Type := { title : string; body : string }.

Definition joke1 : Joke :=
  {| title := "Atoms"; body := "Never trust atoms. They make up everything." |}.
Definition joke2 : Joke :=
  {| title := "Stairs"; body := "I do not trust stairs. They are always up to something." |}.

(** The pool refuses every connection. *)
Definition poolDown : World Joke :=
  {| gateway := fun _ => ConnFail; latency := fun _ => 30%Z |}.

(** Connections are granted, every query fails. *)
Definition queryDown : World Joke :=
  {| gateway := fun _ => QueryFail; latency := fun _ => 30%Z |}.

(** Every query returns the two sample rows. *)
Definition healthy : World Joke :=
  {| gateway := fun _ => QueryOk [joke1; joke2]; latency := fun _ => 30%Z |}.

(** The table is empty. *)
Definition emptyTable : World Joke :=
  {| gateway := fun _ => QueryOk []; latency := fun _ => 30%Z |}.

(** Two failures, then the database is back. *)
Definition recovering : World Joke :=
  {| gateway := fun n => match n with
                         | 0 => ConnFail
                         | 1 => QueryFail
                         | _ => QueryOk [joke1; joke2]
                         end;
     latency := fun _ => 30%Z |}.

(** Two failures, then the database is back and the table is empty. *)
Definition recoveringEmpty : World Joke :=
  {| gateway := fun n => match n with
                         | 0 => QueryFail
                         | 1 => ConnFail
                         | _ => QueryOk []
                         end;
     latency := fun _ => 30%Z |}.

(** The empty table is read at once, then the pool refuses every
    connection. *)
Definition emptyThenDown : World Joke :=
  {| gateway := fun n => match n with
                         | 0 => QueryOk []
                         | _ => ConnFail
                         end;
     latency := fun _ => 0%Z |}.

(** A reading of [Date.now()] in November 2023. *)
Definition T0 : Z := 1700000000000.

(** The entry [updateCache] leaves when it stores the two sample rows at
    time [t]. *)
Definition filledAt (t : Z) : Cache Joke :=
  {| data := [joke1; joke2]; lastUpdated := Some t; isValid := true |}.

(** The process right after its start. *)
Definition coldStart : State Joke := initState T0.

(** A process whose cache entry is [c], seen at time [now]. *)
Definition serving (c : Cache Joke) (now : Z) : State Joke :=
  {| jokesCache := c; clock := now; attempts := 0; trace := [] |}.

(** ** The page that calls GET /post *)

(** The numbers the index of the shown joke can be: an integer, or NaN. *)
Inductive jsnum : Type :=
| Num (z : Z)
| NaN.

(** [a + b] *)
Definition js_add (a b : jsnum) : jsnum :=
  match a, b with
  | Num x, Num y => Num (x + y)
  | _, _ => NaN
  end.

(** [a % b]: NaN when the divisor is 0, otherwise the remainder with the
    sign of the dividend. *)
Definition js_rem (a b : jsnum) : jsnum :=
  match a, b with
  | Num x, Num y => if (y =? 0)%Z then NaN else Num (Z.rem x y)
  | _, _ => NaN
  end.

(** [l[i]]: [undefined] ([None]) unless [i] is an index of [l]. *)
Definition js_index {A : Type} (l : list A) (i : jsnum) : option A :=
  match i with
  | Num z => if (z <? 0)%Z then None else nth_error l (Z.to_nat z)
  | NaN => None
  end.

(** The state of the component: [dt], [currentIndex], [error] (null or a
    message) and [loading]. *)
Record Ui : Type := {
  dt : list Joke;
  currentIndex : jsnum;
  error : option string;
  loading : bool
}.

(** [useState([])], [useState(0)], [useState(null)], [useState(true)] *)
Definition initialUi : Ui :=
  {| dt := []; currentIndex := Num 0; error := None; loading := true |}.

Definition setDt (d : list Joke) (u : Ui) : Ui :=
  {| dt := d; currentIndex := currentIndex u; error := error u;
     loading := loading u |}.
Definition setCurrentIndex (f : jsnum -> jsnum) (u : Ui) : Ui :=
  {| dt := dt u; currentIndex := f (currentIndex u); error := error u;
     loading := loading u |}.
Definition setError (e : option string) (u : Ui) : Ui :=
  {| dt := dt u; currentIndex := currentIndex u; error := e;
     loading := loading u |}.
Definition setLoading (b : bool) (u : Ui) : Ui :=
  {| dt := dt u; currentIndex := currentIndex u; error := error u;
     loading := b |}.

(** [handleNextJoke]:
    [setCurrentIndex((prevIndex) => (prevIndex + 1) % dt.length)] *)
Definition handleNextJoke (u : Ui) : Ui :=
  setCurrentIndex
    (fun prevIndex =>
       js_rem (js_add prevIndex (Num 1))
              (Num (Z.of_nat (List.length (dt u)))))
    u.

(** What the component renders.  [dt[currentIndex].title] throws a
    TypeError when [dt[currentIndex]] is [undefined]. *)
Inductive view : Type :=
| ViewLoading
| ViewJoke (banner : option string) (shownTitle shownBody : string)
| ViewNoData (banner : option string)
| ViewTypeError.

(** [{error && <div>{error}</div>}]: nothing for [null] and for the
    empty string. *)
Definition banner_of (e : option string) : option string :=
  match e with
  | Some "" => None
  | _ => e
  end.

Definition render (u : Ui) : view :=
  if loading u then ViewLoading
  else if 0 <? List.length (dt u) then
    match js_index (dt u) (currentIndex u) with
    | Some j => ViewJoke (banner_of (error u)) (title j) (body j)
    | None => ViewTypeError
    end
  else ViewNoData (banner_of (error u)).

(** The item [cachedJokes] of [localStorage], when present: the text
    [JSON.stringify] makes of a list of rows, which [JSON.parse] turns
    back into that list, or a non-empty text that [JSON.parse] rejects.
    Texts that parse to something else than a list of rows are left
    out; the component never writes one. *)
Inductive stored : Type :=
| Stringified (d : list Joke)
| Unparsable.

(** [localStorage]: [getItem('cachedJokes')] is [null] or a text. *)
Definition Storage : Type := option stored.

(** How [axios.get] settles: with a response (status and parsed body),
    or with no response at all (network error, or the 5000 ms timeout). *)
Inductive reply : Type :=
| Answered (code : nat) (content : payload Joke)
| NoAnswer.

(** axios resolves for a status from 200 to 299 and rejects otherwise. *)
Definition resolves (rep : reply) : option (payload Joke) :=
  match rep with
  | Answered code content =>
      if (200 <=? code) && (code <? 300) then Some content else None
  | NoAnswer => None
  end.

Definition MSG_SHOWING_CACHED : string :=
  "Unable to fetch new data. Showing cached data.".
Definition MSG_NO_DATA : string :=
  "No data available. Please check your connection and try again.".
Definition MSG_OFFLINE : string :=
  "You are offline. Showing cached data.".

(** [fetchData], from the moment [axios.get] settles.  [dtSeen] is the
    [dt] of the render whose [fetchData] is running. *)
Definition fetchData (dtSeen : list Joke) (rep : reply)
           (u : Ui) (st : Storage) : Ui * Storage :=
  match resolves rep with
  | Some (JsonRows rows) =>
      if 0 <? List.length rows then
        (setLoading false (setError None (setDt rows u)),
         Some (Stringified rows))
      else (setLoading false u, st)
  | Some (JsonError _ _) =>
      (* response.data.length is undefined *)
      (setLoading false u, st)
  | None =>
      match st, dtSeen with
      | Some (Stringified d), [] =>
          (setLoading false (setError (Some MSG_SHOWING_CACHED) (setDt d u)),
           st)
      | Some Unparsable, [] =>
          (* JSON.parse throws inside the catch; the finally still runs *)
          (setLoading false u, st)
      | None, [] =>
          (setLoading false (setError (Some MSG_NO_DATA) u), st)
      | _, _ :: _ => (setLoading false u, st)
      end
  end.

(** [loadInitialData], run once after the first render [u]: the
    stored list is shown at once, then, when [navigator.onLine], the
    server is asked.  While the request is pending and the list is
    shown, the user presses the button [presses] times.  [fetchData]
    is the one of the first render, so the [dt] it sees is [dt u]. *)
Definition loadInitialData (online : bool) (rep : reply) (presses : nat)
           (u : Ui) (st : Storage) : Ui * Storage :=
  match st with
  | Some Unparsable =>
      (* JSON.parse throws: nothing else runs *)
      (u, st)
  | _ =>
      let u1 := match st with
                | Some (Stringified d) => setLoading false (setDt d u)
                | _ => u
                end in
      if online then
        let u2 := if loading u1 then u1
                  else Nat.iter presses handleNextJoke u1 in
        fetchData (dt u) rep u2 st
      else (setLoading false (setError (Some MSG_OFFLINE) u1), st)
  end.


Section ServerFacts.

Variable Row : Type.

(** ** Basic facts *)

Lemma count_app (p : event -> bool) (a b : list event) :
  count p (a ++ b) = count p a + count p b.
Proof.
  unfold count. rewrite filter_app. apply length_app.
Qed.

Lemma CACHE_DURATION_ms : CACHE_DURATION = 300000%Z.
Proof. reflexivity. Qed.

Lemma truthy_isCacheValid (c : Cache Row) (now : Z) :
  Js.truthy (isCacheValid c now) =
  isValid c &&
  match lastUpdated c with
  | Some t => negb (t =? 0)%Z && (now - t <? CACHE_DURATION)%Z
  | None => false
  end.
Proof.
  unfold isCacheValid, Js.and.
  destruct (isValid c); simpl; [| reflexivity].
  destruct (lastUpdated c) as [t |]; simpl; [| reflexivity].
  destruct (t =? 0)%Z eqn:Et; simpl; [rewrite Et |]; reflexivity.
Qed.

(** The test yields the boolean [true] or a falsy value ([false],
    [null] or [0]). *)
Lemma isCacheValid_true_or_falsy (c : Cache Row) (now : Z) :
  isCacheValid c now = Js.JBool true \/
  Js.truthy (isCacheValid c now) = false.
Proof.
  unfold isCacheValid, Js.and.
  destruct (isValid c); simpl; [| right; reflexivity].
  destruct (lastUpdated c) as [t |]; simpl; [| right; reflexivity].
  destruct (t =? 0)%Z eqn:Et; simpl.
  - right. rewrite Et. reflexivity.
  - destruct (now - t <? CACHE_DURATION)%Z; [left | right]; reflexivity.
Qed.

Lemma attempt_spec (w : World Row) (s : State Row) :
  let o := gateway w (attempts s) in
  let s1 := fst (attempt w s) in
  snd (attempt w s) = attempt_result o /\
  trace s1 = trace s ++ attempt_events o /\
  jokesCache s1 = jokesCache s /\
  attempts s1 = S (attempts s) /\
  clock s1 = (clock s + latency w (attempts s))%Z.
Proof.
  unfold attempt. cbv zeta.
  destruct (gateway w (attempts s)); simpl;
    repeat rewrite <- app_assoc; simpl; auto.
Qed.

Lemma on_catch_spec (k : nat) (s : State Row) :
  trace (on_catch k s) =
    trace s ++ [EvLog (LogRetrying k MAX_RETRIES); EvSleep RETRY_DELAY] /\
  jokesCache (on_catch k s) = jokesCache s /\
  attempts (on_catch k s) = attempts s /\
  clock (on_catch k s) = (clock s + RETRY_DELAY)%Z.
Proof.
  unfold on_catch. simpl. rewrite <- app_assoc. auto.
Qed.

(** ** The retry loop *)

Lemma attempt_events_balanced (o : outcome Row) :
  count is_acquired (attempt_events o) = count is_release (attempt_events o) /\
  count is_get_connection (attempt_events o) = 1 /\
  count is_sleep (attempt_events o) = 0 /\
  count is_update (attempt_events o) = 0.
Proof. destruct o; repeat split; reflexivity. Qed.

Lemma attempt_rejected_failure (o : outcome Row) (e : Error) :
  attempt_result o = Rejected e -> is_failure o = true.
Proof. destruct o; simpl; intros H; [reflexivity | reflexivity | discriminate]. Qed.

Lemma attempt_resolved_ok (o : outcome Row) (results : list Row) :
  attempt_result o = Resolved results -> o = QueryOk results.
Proof. destruct o; simpl; intros H; try discriminate. congruence. Qed.

Lemma fetch_loop_total (w : World Row) (fuel : nat) :
  forall r s, MAX_RETRIES - r < fuel ->
              exists s' res, fetch_loop fuel r w s = Some (s', res).
Proof.
  induction fuel as [| fuel IH]; intros r s Hf; [lia |].
  simpl. destruct (Nat.ltb_spec r MAX_RETRIES) as [Hr | Hr].
  - destruct (attempt w s) as [s1 [results | e]].
    + eauto.
    + apply IH. lia.
  - eauto.
Qed.

Lemma fetch_loop_spec (w : World Row) (fuel : nat) :
  forall r s s' res,
    fetch_loop fuel r w s = Some (s', res) ->
    exists evs, fetch_post w r s s' res evs.
Proof.
  induction fuel as [| fuel IH]; intros r s s' res H; [discriminate |].
  simpl in H. destruct (Nat.ltb_spec r MAX_RETRIES) as [Hr | Hr].
  - pose proof (attempt_spec w s) as A. cbv zeta in A.
    destruct (attempt w s) as [s1 a]. simpl in A.
    destruct A as (Ares & Atr & Ac & An & _).
    pose proof (attempt_events_balanced (gateway w (attempts s)))
      as (Bal & Bget & Bsl & Bup).
    destruct a as [results | e].
    + inversion H; subst s1 res; clear H.
      symmetry in Ares. apply attempt_resolved_ok in Ares.
      exists (attempt_events (gateway w (attempts s))).
      repeat split; auto; try lia.
      exists 0. repeat rewrite Nat.add_0_r. repeat split; auto; try lia.
    + symmetry in Ares. apply attempt_rejected_failure in Ares.
      apply IH in H. destruct H as (evs2 & (Tr & Ca & Up) & Bal2 & Att2 & Post).
      destruct (on_catch_spec (S r) s1) as (Otr & Oc & On & _).
      set (mid := [EvLog (LogRetrying (S r) MAX_RETRIES); EvSleep RETRY_DELAY]) in *.
      exists (attempt_events (gateway w (attempts s)) ++ mid ++ evs2).
      assert (Hmid : count is_acquired mid = 0 /\ count is_release mid = 0 /\
                     count is_get_connection mid = 0 /\ count is_sleep mid = 1 /\
                     count is_update mid = 0)
        by (repeat split; reflexivity).
      destruct Hmid as (M1 & M2 & M3 & M4 & M5).
      split; [| split; [| split]].
      * repeat split.
        -- rewrite Tr, Otr, Atr. repeat rewrite <- app_assoc. reflexivity.
        -- congruence.
        -- repeat rewrite count_app. lia.
      * repeat rewrite count_app. lia.
      * repeat rewrite count_app. rewrite Att2, On, An. lia.
      * rewrite On, An in Post.
        destruct res as [results | e'].
        -- destruct Post as (k & Hk & Hg & Hfail & Hget & Hsl).
           exists (S k). repeat split.
           ++ lia.
           ++ rewrite <- Hg. f_equal. lia.
           ++ intros j Hj. destruct j as [| j].
              ** rewrite Nat.add_0_r. exact Ares.
              ** replace (attempts s + S j) with (S (attempts s) + j) by lia.
                 apply Hfail. lia.
           ++ repeat rewrite count_app. lia.
           ++ repeat rewrite count_app. lia.
        -- destruct Post as (He & Hfail & Hget & Hsl & Hnil & Hlast).
           repeat split.
           ++ exact He.
           ++ intros j Hj. destruct j as [| j].
              ** rewrite Nat.add_0_r. exact Ares.
              ** replace (attempts s + S j) with (S (attempts s) + j) by lia.
                 apply Hfail. lia.
           ++ repeat rewrite count_app. lia.
           ++ repeat rewrite count_app. lia.
           ++ intros Hge. lia.
           ++ intros _. destruct (Nat.lt_ge_cases (S r) MAX_RETRIES) as [Hlt | Hge].
              ** destruct (Hlast Hlt) as (pre & Hpre).
                 exists (attempt_events (gateway w (attempts s)) ++ mid ++ pre).
                 rewrite Hpre. repeat rewrite <- app_assoc. reflexivity.
              ** rewrite (Hnil Hge).
                 exists (attempt_events (gateway w (attempts s))).
                 assert (S r = MAX_RETRIES) as E by lia.
                 subst mid. rewrite E. rewrite app_nil_r. reflexivity.
  - inversion H; subst s' res; clear H.
    exists []. unfold fetch_post, reads_only, count.
    cbn [filter List.length]. rewrite app_nil_r.
    repeat split; try lia.
Qed.

Lemma fetch_total (w : World Row) (s : State Row) :
  exists s' res, fetchJokesFromDB w s = Some (s', res).
Proof.
  unfold fetchJokesFromDB. apply fetch_loop_total. lia.
Qed.

Lemma fetch_spec (w : World Row) (s s' : State Row) (res : settled Row) :
  fetchJokesFromDB w s = Some (s', res) ->
  exists evs, fetch_post w 0 s s' res evs.
Proof. unfold fetchJokesFromDB. apply fetch_loop_spec. Qed.

(** Three failures in a row: the loop ends by throwing [ERR_RETRIES]. *)
Lemma fetch_all_fail (w : World Row) (s : State Row) :
  all_fail w s ->
  exists s' evs,
    fetchJokesFromDB w s = Some (s', Rejected ERR_RETRIES) /\
    fetch_post w 0 s s' (Rejected ERR_RETRIES) evs.
Proof.
  intros Hall.
  destruct (fetch_total w s) as (s' & res & Hf).
  destruct (fetch_spec _ _ _ _ Hf) as (evs & Hpost).
  destruct res as [results | e].
  - destruct Hpost as (_ & _ & _ & k & Hk & Hg & _).
    specialize (Hall k Hk). rewrite Hg in Hall. discriminate.
  - assert (e = ERR_RETRIES) by apply Hpost. subst e. eauto.
Qed.

(** The loop throws only after [MAX_RETRIES] failures in a row. *)
Lemma fetch_rejected_all_fail (w : World Row) (s s' : State Row) (e : Error) :
  fetchJokesFromDB w s = Some (s', Rejected e) ->
  e = ERR_RETRIES /\ all_fail w s.
Proof.
  intros Hf. destruct (fetch_spec _ _ _ _ Hf) as (evs & _ & _ & _ & He & Hall & _).
  split; [exact He |]. intros j Hj. apply Hall. exact Hj.
Qed.

(** The first success, at position [S k <= MAX_RETRIES], ends the
    loop: [S k] attempts, [k] delays, and the rows of that attempt. *)
Lemma fetch_first_success (w : World Row) (s : State Row) (k : nat)
      (results : list Row) :
  k < MAX_RETRIES ->
  (forall j, j < k -> is_failure (gateway w (attempts s + j)) = true) ->
  gateway w (attempts s + k) = QueryOk results ->
  exists s' evs,
    fetchJokesFromDB w s = Some (s', Resolved results) /\
    reads_only s s' evs /\
    attempts s' = attempts s + S k /\
    count is_get_connection evs = S k /\
    count is_sleep evs = k.
Proof.
  intros Hk Hfail Hok.
  destruct (fetch_total w s) as (s' & res & Hf).
  destruct (fetch_spec _ _ _ _ Hf) as (evs & Hro & _ & Hatt & Hpost).
  destruct res as [results' | e].
  - destruct Hpost as (k' & Hk' & Hg & Hfail' & Hget & Hsl).
    assert (k' = k) as ->.
    { destruct (Nat.lt_trichotomy k' k) as [Hlt | [Heq | Hgt]]; [| exact Heq |].
      - specialize (Hfail k' Hlt). rewrite Hg in Hfail. discriminate.
      - specialize (Hfail' k Hgt). rewrite Hok in Hfail'. discriminate. }
    assert (results' = results) as -> by congruence.
    exists s', evs. repeat split; try apply Hro; auto. lia.
  - destruct Hpost as (_ & Hall & _).
    specialize (Hall k Hk). rewrite Hok in Hall. discriminate.
Qed.

(** ** The handler *)

Lemma getPost_total (w : World Row) (s : State Row) :
  exists s' r, getPost w s = Some (s', r).
Proof.
  unfold getPost.
  destruct (Js.truthy _); [eauto |].
  destruct (fetch_total w s) as (s1 & res & ->).
  destruct res as [jokes | error]; [eauto |].
  destruct (0 <? _); [eauto |].
  destruct (String.eqb _ _); eauto.
Qed.

Lemma getPost_fast_path (w : World Row) (s : State Row) :
  Js.truthy (isCacheValid (jokesCache s) (clock s)) = true ->
  getPost w s =
  Some (emit (EvLog LogServingFromCache) s,
        {| status := 200; cacheControl := None;
           json := JsonRows (data (jokesCache s)) |}).
Proof. intros H. unfold getPost. rewrite H. reflexivity. Qed.

(** The handler's [catch] branch after [ERR_RETRIES], cache not empty. *)
Lemma getPost_stale_path (w : World Row) (s s1 : State Row) :
  Js.truthy (isCacheValid (jokesCache s) (clock s)) = false ->
  fetchJokesFromDB w s = Some (s1, Rejected ERR_RETRIES) ->
  data (jokesCache s1) <> [] ->
  getPost w s =
  Some (emit (EvLog LogServingStale) (emit (EvLog (LogRouteError ERR_RETRIES)) s1),
        {| status := 200; cacheControl := Some HINT_STALE;
           json := JsonRows (data (jokesCache s1)) |}).
Proof.
  intros Hv Hf Hd. unfold getPost. rewrite Hv, Hf. simpl.
  destruct (data (jokesCache s1)); [congruence | reflexivity].
Qed.

(** The handler's [catch] branch after [ERR_RETRIES], cache empty. *)
Lemma getPost_error_path (w : World Row) (s s1 : State Row) :
  Js.truthy (isCacheValid (jokesCache s) (clock s)) = false ->
  fetchJokesFromDB w s = Some (s1, Rejected ERR_RETRIES) ->
  data (jokesCache s1) = [] ->
  getPost w s =
  Some (emit (EvLog (LogRouteError ERR_RETRIES)) s1,
        {| status := 503; cacheControl := None;
           json := JsonError "Service temporarily unavailable"
                             "Please try again later" |}).
Proof.
  intros Hv Hf Hd. unfold getPost. rewrite Hv, Hf. simpl.
  rewrite Hd. reflexivity.
Qed.

Lemma getPost_fresh_path (w : World Row) (s s1 : State Row) (jokes : list Row) :
  Js.truthy (isCacheValid (jokesCache s) (clock s)) = false ->
  fetchJokesFromDB w s = Some (s1, Resolved jokes) ->
  getPost w s =
  Some (updateCache jokes s1,
        {| status := 200; cacheControl := Some HINT_FRESH;
           json := JsonRows jokes |}).
Proof. intros Hv Hf. unfold getPost. rewrite Hv, Hf. reflexivity. Qed.

Lemma getPost_handled (w : World Row) (s s' : State Row) (r : Response Row) :
  getPost w s = Some (s', r) -> exists evs, handled w s s' r evs.
Proof.
  intros H.
  destruct (Js.truthy (isCacheValid (jokesCache s) (clock s))) eqn:Hv.
  - rewrite (getPost_fast_path w s Hv) in H. inversion H; subst.
    eexists. apply CacheHit. exact Hv.
  - destruct (fetch_total w s) as (s1 & res & Hf).
    destruct (fetch_spec _ _ _ _ Hf) as (evs & Hpost).
    destruct res as [jokes | e].
    + rewrite (getPost_fresh_path w s s1 jokes Hv Hf) in H.
      inversion H; subst. eexists. eapply Fetched; eauto.
    + assert (e = ERR_RETRIES) by apply Hpost. subst e.
      assert (Hc : jokesCache s1 = jokesCache s) by apply Hpost.
      destruct (data (jokesCache s)) as [| x l] eqn:Hd.
      * rewrite (getPost_error_path w s s1 Hv Hf) in H by congruence.
        inversion H; subst. eexists. eapply Unavailable; eauto.
      * rewrite (getPost_stale_path w s s1 Hv Hf) in H by congruence.
        inversion H; subst. rewrite Hc, Hd, <- Hd.
        eexists. eapply StaleServed; eauto. congruence.
Qed.

Lemma handled_trace (w : World Row) (s s' : State Row) (r : Response Row)
      (evs : list event) :
  handled w s s' r evs -> trace s' = trace s ++ evs.
Proof.
  intros H. destruct H as [Hv | s1 jokes evs Hv Hf Hp | s1 evs Hv Hf Hp Hd
                           | s1 evs Hv Hf Hp Hd]; simpl.
  - reflexivity.
  - destruct Hp as ((Tr & _) & _). rewrite Tr, <- app_assoc. reflexivity.
  - destruct Hp as ((Tr & _) & _). rewrite Tr. repeat rewrite <- app_assoc.
    reflexivity.
  - destruct Hp as ((Tr & _) & _). rewrite Tr, <- app_assoc. reflexivity.
Qed.

(** ** What exhaustion looks like, in every environment *)

(** A run of the loop makes at most [MAX_RETRIES] attempts. *)
Lemma fetch_at_most_max_attempts (w : World Row) (s s' : State Row)
      (res : settled Row) :
  fetchJokesFromDB w s = Some (s', res) ->
  attempts s <= attempts s' <= attempts s + MAX_RETRIES.
Proof.
  intros Hf.
  destruct (fetch_spec _ _ _ _ Hf) as (evs & _ & _ & Hatt & Hpost).
  destruct res as [results | e].
  - destruct Hpost as (k & Hk & _ & _ & Hget & _). lia.
  - destruct Hpost as (_ & _ & Hget & _). lia.
Qed.

(** After [MAX_RETRIES] failures the loop has slept [MAX_RETRIES]
    times; its last two events are the "retrying (attempt 3/3)" message
    and a delay, and the error it throws is [ERR_RETRIES] whatever the
    causes were. *)
Lemma fetch_exhausted (w : World Row) (s : State Row) :
  all_fail w s ->
  exists s' pre,
    fetchJokesFromDB w s = Some (s', Rejected ERR_RETRIES) /\
    trace s' = trace s ++ pre ++ [EvLog (LogRetrying MAX_RETRIES MAX_RETRIES);
                                  EvSleep RETRY_DELAY] /\
    count is_sleep pre = MAX_RETRIES - 1 /\
    attempts s' = attempts s + MAX_RETRIES.
Proof.
  intros Hall.
  destruct (fetch_all_fail w s Hall)
    as (s' & evs & Hf & (Tr & _) & _ & Hatt & _ & _ & Hget & Hsl & _ & Hlast).
  destruct Hlast as (pre & Hpre); [unfold MAX_RETRIES; lia |].
  exists s', pre. repeat split.
  - exact Hf.
  - rewrite Tr, Hpre. reflexivity.
  - rewrite Hpre, count_app in Hsl.
    change (count is_sleep [EvLog (LogRetrying MAX_RETRIES MAX_RETRIES);
                            EvSleep RETRY_DELAY]) with 1 in Hsl.
    lia.
  - lia.
Qed.

(** The handler never sends the 'Database connection error' body: the
    only error that reaches its [catch] is [ERR_RETRIES]. *)
Lemma getPost_never_connection_error (w : World Row) (s s' : State Row)
      (r : Response Row) (msg : string) :
  getPost w s = Some (s', r) ->
  json r <> JsonError "Database connection error" msg.
Proof.
  intros H. destruct (getPost_handled _ _ _ _ H) as (evs & Hh).
  destruct Hh; simpl; discriminate.
Qed.

(** A call that does not hit the cache goes to the pool at least once
    and at most [MAX_RETRIES] times; a call that hits it does not go to
    the pool. *)
Lemma getPost_pool_calls (w : World Row) (s s' : State Row)
      (r : Response Row) :
  getPost w s = Some (s', r) ->
  if Js.truthy (isCacheValid (jokesCache s) (clock s))
  then attempts s' = attempts s
  else attempts s < attempts s' <= attempts s + MAX_RETRIES.
Proof.
  intros H. destruct (getPost_handled _ _ _ _ H) as (evs & Hh).
  destruct Hh as [Hv | s1 jokes evs Hv Hf Hp | s1 evs Hv Hf Hp Hd
                  | s1 evs Hv Hf Hp Hd]; rewrite Hv; simpl.
  - reflexivity.
  - destruct Hp as (_ & _ & Hatt & n & Hn & _ & _ & Hget & _). lia.
  - destruct Hp as (_ & _ & Hatt & _ & _ & Hget & _).
    rewrite Hatt, Hget. unfold MAX_RETRIES. lia.
  - destruct Hp as (_ & _ & Hatt & _ & _ & Hget & _).
    rewrite Hatt, Hget. unfold MAX_RETRIES. lia.
Qed.

(** ** Properties of the read path, in every environment *)

(** C2. When the cache test fails, the next three attempts all fail and
    the cache holds at least one row (whatever its flag and timestamp
    say), the handler answers 200 with the cached rows and
    [Cache-Control: public, max-age=60]; no error response is sent and
    the cache is left as it was. *)
Theorem stale_cache_served_on_terminal_failure
        (w : World Row) (s : State Row) :
  Js.truthy (isCacheValid (jokesCache s) (clock s)) = false ->
  all_fail w s ->
  data (jokesCache s) <> [] ->
  exists s',
    getPost w s =
    Some (s', {| status := 200;
                 cacheControl := Some "public, max-age=60";
                 json := JsonRows (data (jokesCache s)) |}) /\
    jokesCache s' = jokesCache s.
Proof.
  intros Hv Hall Hd.
  destruct (fetch_all_fail w s Hall) as (s1 & evs & Hf & (_ & Hc & _) & _).
  eexists. split.
  - rewrite (getPost_stale_path w s s1 Hv Hf) by congruence.
    rewrite Hc. reflexivity.
  - simpl. exact Hc.
Qed.

(** C5. The handler always answers.  When the cache test fails, the
    cache holds no row and the next three attempts all fail, the answer
    is status 503 with the body
    [{error: 'Service temporarily unavailable', message: 'Please try
    again later'}] and no rows; in every other case the answer is
    status 200 with rows. *)
Theorem failure_visible_only_on_empty_cache (w : World Row) (s : State Row) :
  exists s' r,
    getPost w s = Some (s', r) /\
    (Js.truthy (isCacheValid (jokesCache s) (clock s)) = false /\
     data (jokesCache s) = [] /\ all_fail w s ->
     r = {| status := 503; cacheControl := None;
            json := JsonError "Service temporarily unavailable"
                              "Please try again later" |}) /\
    (~ (Js.truthy (isCacheValid (jokesCache s) (clock s)) = false /\
        data (jokesCache s) = [] /\ all_fail w s) ->
     status r = 200 /\ exists rows, json r = JsonRows rows).
Proof.
  destruct (getPost_total w s) as (s' & r & H).
  exists s', r. split; [exact H |].
  destruct (getPost_handled _ _ _ _ H) as (evs & Hh).
  destruct Hh as [Hv | s1 jokes evs Hv Hf Hp | s1 evs Hv Hf Hp Hd
                  | s1 evs Hv Hf Hp Hd].
  - split.
    + intros (Hv' & _). congruence.
    + intros _. simpl. eauto.
  - split.
    + intros (_ & _ & Hall).
      destruct Hp as (_ & _ & _ & k & Hk & Hg & _).
      specialize (Hall k Hk). rewrite Hg in Hall. discriminate.
    + intros _. simpl. eauto.
  - split.
    + intros (_ & Hd' & _). contradiction.
    + intros _. simpl. eauto.
  - split.
    + intros _. reflexivity.
    + intros Hn. exfalso. apply Hn. repeat split; auto.
      apply (fetch_rejected_all_fail _ _ _ _ Hf).
Qed.

(** C6, as amended.  [isCacheValid()] returns [true] exactly when the
    [isValid] flag is true, [lastUpdated] holds a timestamp other than 0
    and [now - lastUpdated] is below [CACHE_DURATION], which is 300000
    ms; every other result is falsy.  The test takes the clock reading
    of the call, so for a fixed entry it is falsy at every reading from
    [lastUpdated + CACHE_DURATION] on. *)
Theorem isCacheValid_characterisation (c : Cache Row) (now : Z) :
  (isCacheValid c now = Js.JBool true <->
   isValid c = true /\
   exists t, lastUpdated c = Some t /\ t <> 0%Z /\
             (now - t < CACHE_DURATION)%Z) /\
  (isCacheValid c now <> Js.JBool true ->
   Js.truthy (isCacheValid c now) = false) /\
  CACHE_DURATION = 300000%Z /\
  (forall t, lastUpdated c = Some t -> (t + CACHE_DURATION <= now)%Z ->
             Js.truthy (isCacheValid c now) = false).
Proof.
  split; [| split; [| split]].
  - split.
    + intros H.
      assert (T : Js.truthy (isCacheValid c now) = true) by (rewrite H; reflexivity).
      rewrite truthy_isCacheValid in T.
      apply andb_true_iff in T. destruct T as (V & T).
      destruct (lastUpdated c) as [t |]; [| discriminate].
      apply andb_true_iff in T. destruct T as (N & L).
      split; [exact V |]. exists t. repeat split.
      * apply negb_true_iff in N. apply Z.eqb_neq. exact N.
      * apply Z.ltb_lt. exact L.
    + intros (V & t & E & N & L).
      destruct (isCacheValid_true_or_falsy c now) as [T | F]; [exact T |].
      rewrite truthy_isCacheValid, V, E in F. simpl in F.
      apply Z.eqb_neq in N. apply Z.ltb_lt in L. rewrite N, L in F.
      discriminate.
  - intros H. destruct (isCacheValid_true_or_falsy c now); [contradiction | assumption].
  - reflexivity.
  - intros t E L. rewrite truthy_isCacheValid, E.
    assert ((now - t <? CACHE_DURATION)%Z = false) as -> by (apply Z.ltb_ge; lia).
    rewrite andb_false_r. apply andb_false_r.
Qed.

(** C7. [updateCache(data)] assigns exactly [{data, lastUpdated: now,
    isValid: true}], whatever the entry was before; and a call of the
    handler either leaves the cache entry as it found it and performs no
    assignment (this covers the cache hit, the stale answer and the 503
    answer), or it has fetched rows successfully and performed the one
    assignment of [updateCache] with them. *)
Theorem updateCache_only_mutator :
  (forall (d : list Row) (s : State Row),
      jokesCache (updateCache d s) =
      {| data := d; lastUpdated := Some (clock s); isValid := true |}) /\
  (forall (w : World Row) (s s' : State Row) (r : Response Row),
      getPost w s = Some (s', r) ->
      exists evs,
        trace s' = trace s ++ evs /\
        ((jokesCache s' = jokesCache s /\ count is_update evs = 0) \/
         (exists s1 jokes,
             fetchJokesFromDB w s = Some (s1, Resolved jokes) /\
             jokesCache s1 = jokesCache s /\
             s' = updateCache jokes s1 /\
             count is_update evs = 1))).
Proof.
  split; [reflexivity |].
  intros w s s' r H.
  destruct (getPost_handled _ _ _ _ H) as (evs & Hh).
  exists evs. split; [apply (handled_trace _ _ _ _ _ Hh) |].
  destruct Hh as [Hv | s1 jokes evs Hv Hf Hp | s1 evs Hv Hf Hp Hd
                  | s1 evs Hv Hf Hp Hd].
  - left. split; reflexivity.
  - right. exists s1, jokes. destruct Hp as ((_ & Hc & Hu) & _).
    repeat split; auto. rewrite count_app, Hu. reflexivity.
  - left. destruct Hp as ((_ & Hc & Hu) & _). split; [exact Hc |].
    rewrite count_app, Hu. reflexivity.
  - left. destruct Hp as ((_ & Hc & Hu) & _). split; [exact Hc |].
    rewrite count_app, Hu. reflexivity.
Qed.

(** C8. An attempt that is granted a connection adds to the trace the
    call of [getConnection], the grant, the query and then one release,
    and nothing after them that grants or releases: this holds whether
    the query calls back with rows or with an error, whose result the
    loop drops.  An attempt that is refused a connection neither holds
    nor releases one, and over a whole run of [fetchJokesFromDB] grants
    and releases are equal in number. *)
Theorem handle_released_exactly_once :
  (forall (w : World Row) (s : State Row),
      gateway w (attempts s) <> ConnFail ->
      exists rest,
        trace (fst (attempt w s)) =
        trace s ++ [EvGetConnection; EvAcquired; EvQuery; EvRelease] ++ rest /\
        count is_acquired rest = 0 /\ count is_release rest = 0) /\
  (forall (w : World Row) (s : State Row),
      gateway w (attempts s) = ConnFail ->
      exists evs,
        trace (fst (attempt w s)) = trace s ++ evs /\
        count is_acquired evs = 0 /\ count is_release evs = 0) /\
  (forall (w : World Row) (s s' : State Row) (res : settled Row),
      fetchJokesFromDB w s = Some (s', res) ->
      exists evs,
        trace s' = trace s ++ evs /\
        count is_acquired evs = count is_release evs).
Proof.
  split; [| split].
  - intros w s Hg.
    destruct (attempt_spec w s) as (_ & Tr & _). rewrite Tr.
    destruct (gateway w (attempts s)) as [| | results]; [congruence | |].
    + exists [EvLog LogQueryError]. repeat split.
    + exists []. repeat split.
  - intros w s Hg.
    destruct (attempt_spec w s) as (_ & Tr & _). rewrite Tr, Hg.
    eexists. repeat split.
  - intros w s s' res Hf.
    destruct (fetch_spec _ _ _ _ Hf) as (evs & (Tr & _) & Bal & _).
    exists evs. split; assumption.
Qed.

(** C9, as amended.  When the cache test fails and the first attempt
    that succeeds, the [S k]-th of at most [MAX_RETRIES], returns zero
    rows, the handler answers 200 with the empty list and the fresh
    hint, and the cache entry becomes [{data: [], lastUpdated: t,
    isValid: true}].  From that entry, provided [t] is not 0, a call
    made while [now - t < CACHE_DURATION] is answered with the empty
    list from the cache; a call made at [t + CACHE_DURATION] or later
    whose three attempts fail is answered with the 503 body, although
    the entry came from a successful fetch. *)
Theorem empty_result_not_a_fallback (w : World Row) (s : State Row)
        (k : nat) :
  Js.truthy (isCacheValid (jokesCache s) (clock s)) = false ->
  k < MAX_RETRIES ->
  (forall j, j < k -> is_failure (gateway w (attempts s + j)) = true) ->
  gateway w (attempts s + k) = QueryOk [] ->
  exists s1 t,
    getPost w s =
    Some (s1, {| status := 200; cacheControl := Some "public, max-age=300";
                 json := JsonRows [] |}) /\
    jokesCache s1 = {| data := []; lastUpdated := Some t; isValid := true |} /\
    (forall (w2 : World Row) (s2 : State Row),
        jokesCache s2 = jokesCache s1 ->
        t <> 0%Z ->
        (clock s2 - t < CACHE_DURATION)%Z ->
        getPost w2 s2 =
        Some (emit (EvLog LogServingFromCache) s2,
              {| status := 200; cacheControl := None;
                 json := JsonRows [] |})) /\
    (forall (w3 : World Row) (s3 : State Row),
        jokesCache s3 = jokesCache s1 ->
        (t + CACHE_DURATION <= clock s3)%Z ->
        all_fail w3 s3 ->
        exists s4,
          getPost w3 s3 =
          Some (s4, {| status := 503; cacheControl := None;
                       json := JsonError "Service temporarily unavailable"
                                         "Please try again later" |})).
Proof.
  intros Hv Hk Hfail Hok.
  destruct (fetch_first_success w s k [] Hk Hfail Hok) as (s' & evs & Hf & _).
  exists (updateCache [] s'), (clock s').
  split; [apply (getPost_fresh_path w s s' [] Hv Hf) |].
  split; [reflexivity |].
  split.
  - intros w2 s2 Hc Ht Hl.
    rewrite getPost_fast_path.
    + rewrite Hc. reflexivity.
    + rewrite truthy_isCacheValid, Hc. simpl.
      apply Z.eqb_neq in Ht. apply Z.ltb_lt in Hl. rewrite Ht, Hl. reflexivity.
  - intros w3 s3 Hc Hl Hall.
    assert (Hv3 : Js.truthy (isCacheValid (jokesCache s3) (clock s3)) = false).
    { rewrite truthy_isCacheValid, Hc. simpl.
      assert ((clock s3 - clock s' <? CACHE_DURATION)%Z = false) as ->
          by (apply Z.ltb_ge; lia).
      apply andb_false_r. }
    destruct (fetch_all_fail w3 s3 Hall) as (s4 & evs4 & Hf4 & (_ & Hc4 & _) & _).
    eexists. apply (getPost_error_path w3 s3 s4 Hv3 Hf4).
    rewrite Hc4, Hc. reflexivity.
Qed.

(** C10. When the cache test fails and the next three attempts all
    fail, the handler answers and the cache entry after the call is the
    entry before it: the events of the call contain no assignment of
    [jokesCache].  In any call, an assignment in the events means that
    [fetchJokesFromDB] resolved. *)
Theorem cache_unchanged_on_terminal_failure (w : World Row) (s : State Row) :
  (Js.truthy (isCacheValid (jokesCache s) (clock s)) = false ->
   all_fail w s ->
   exists s' r evs,
     getPost w s = Some (s', r) /\
     jokesCache s' = jokesCache s /\
     trace s' = trace s ++ evs /\
     count is_update evs = 0) /\
  (forall s' r evs,
      getPost w s = Some (s', r) ->
      trace s' = trace s ++ evs ->
      count is_update evs <> 0 ->
      exists s1 jokes, fetchJokesFromDB w s = Some (s1, Resolved jokes)).
Proof.
  split.
  - intros Hv Hall.
    destruct (getPost_total w s) as (s' & r & H).
    destruct (getPost_handled _ _ _ _ H) as (evs & Hh).
    exists s', r, evs. split; [exact H |].
    split; [| split; [apply (handled_trace _ _ _ _ _ Hh) |]].
    + destruct Hh as [Hv' | s1 jokes evs Hv' Hf Hp | s1 evs Hv' Hf Hp Hd
                      | s1 evs Hv' Hf Hp Hd].
      * reflexivity.
      * destruct Hp as (_ & _ & _ & k & Hk & Hg & _).
        specialize (Hall k Hk). rewrite Hg in Hall. discriminate.
      * simpl. apply Hp.
      * simpl. apply Hp.
    + destruct Hh as [Hv' | s1 jokes evs Hv' Hf Hp | s1 evs Hv' Hf Hp Hd
                      | s1 evs Hv' Hf Hp Hd].
      * congruence.
      * destruct Hp as (_ & _ & _ & k & Hk & Hg & _).
        specialize (Hall k Hk). rewrite Hg in Hall. discriminate.
      * destruct Hp as ((_ & _ & Hu) & _). rewrite count_app, Hu. reflexivity.
      * destruct Hp as ((_ & _ & Hu) & _). rewrite count_app, Hu. reflexivity.
  - intros s' r evs H Tr Hu.
    destruct (getPost_handled _ _ _ _ H) as (evs' & Hh).
    pose proof (handled_trace _ _ _ _ _ Hh) as Tr'.
    rewrite Tr in Tr'. apply app_inv_head in Tr'. subst evs'.
    destruct Hh as [Hv' | s1 jokes evs Hv' Hf Hp | s1 evs Hv' Hf Hp Hd
                    | s1 evs Hv' Hf Hp Hd].
    + exfalso. apply Hu. reflexivity.
    + eauto.
    + exfalso. apply Hu. destruct Hp as ((_ & _ & Hu') & _).
      rewrite count_app, Hu'. reflexivity.
    + exfalso. apply Hu. destruct Hp as ((_ & _ & Hu') & _).
      rewrite count_app, Hu'. reflexivity.
Qed.

End ServerFacts.

(** ** The scenarios of the specification, run *)

(** Empty cache, the first attempt returns two rows: they are sent with
    the fresh hint after one attempt and no delay, and the cache holds
    them, stamped with the time of the assignment. *)
Example cold_start_success :
  getPost healthy coldStart =
    Some ({| jokesCache := filledAt (T0 + 30);
             clock := (T0 + 30)%Z;
             attempts := 1;
             trace := [EvGetConnection; EvAcquired; EvQuery; EvRelease;
                       EvUpdateCache] |},
          {| status := 200; cacheControl := Some "public, max-age=300";
             json := JsonRows [joke1; joke2] |}).
Proof. reflexivity. Qed.

(** Two failures and a success: three attempts, two delays. *)
Example third_attempt_succeeds :
  option_map (fun p => (attempts (fst p), count is_sleep (trace (fst p)), snd p))
             (fetchJokesFromDB recovering coldStart) =
    Some (3, 2, Resolved [joke1; joke2]).
Proof. reflexivity. Qed.

(** An empty table is a success: the handler sends the empty list. *)
Example empty_table_served :
  option_map snd (getPost emptyTable coldStart) =
    Some {| status := 200; cacheControl := Some "public, max-age=300";
            json := JsonRows [] |}.
Proof. reflexivity. Qed.

(** An entry older than [CACHE_DURATION] and a dead pool: the old rows
    are sent with the stale hint. *)
Example expired_cache_dead_pool :
  option_map snd (getPost poolDown (serving (filledAt T0) (T0 + 300000))) =
    Some {| status := 200; cacheControl := Some "public, max-age=60";
            json := JsonRows [joke1; joke2] |}.
Proof. reflexivity. Qed.

(** ** Where the code departs from the specification *)

(** C1. Cold start, the pool refuses all three connections: every
    attempt rejects with 'Error connecting to the database', yet the
    loop throws a new error with another message, and the handler
    answers with the generic 'Service temporarily unavailable' body, the
    one it also sends when the three failures are query failures. *)
Theorem connect_cause_lost_at_exhaustion :
  snd (attempt poolDown coldStart) = Rejected ERR_CONNECT /\
  (forall n, attempt_result (gateway poolDown n) = Rejected ERR_CONNECT) /\
  option_map snd (fetchJokesFromDB poolDown coldStart) =
    Some (Rejected ERR_RETRIES) /\
  message ERR_RETRIES <> message ERR_CONNECT /\
  option_map snd (getPost poolDown coldStart) =
    Some {| status := 503; cacheControl := None;
            json := JsonError "Service temporarily unavailable"
                              "Please try again later" |} /\
  option_map snd (getPost queryDown coldStart) =
    option_map snd (getPost poolDown coldStart).
Proof.
  split; [reflexivity |].
  split; [intros n; reflexivity |].
  split; [reflexivity |].
  split; [discriminate |].
  split; reflexivity.
Qed.

(** C3. A cache filled one second ago: the handler answers from the
    cache without calling the pool, and the answer carries no
    [Cache-Control] header. *)
Theorem fast_path_sends_no_cache_control :
  Js.truthy (isCacheValid (filledAt T0) (T0 + 1000)) = true /\
  getPost healthy (serving (filledAt T0) (T0 + 1000)) =
    Some ({| jokesCache := filledAt T0; clock := (T0 + 1000)%Z;
             attempts := 0; trace := [EvLog LogServingFromCache] |},
          {| status := 200; cacheControl := None;
             json := JsonRows [joke1; joke2] |}).
Proof. split; reflexivity. Qed.

(** C4. Three refused connections from a cold start: the loop makes
    three attempts and three delays, the third delay after the third
    failure, and then throws without a further attempt. *)
Theorem delay_follows_third_failure :
  fetchJokesFromDB poolDown coldStart =
    Some ({| jokesCache := emptyCache;
             clock := (T0 + 3 * 30 + 3 * RETRY_DELAY)%Z;
             attempts := 3;
             trace :=
               [EvGetConnection; EvLog LogGetConnectionError;
                EvLog (LogRetrying 1 3); EvSleep 1000;
                EvGetConnection; EvLog LogGetConnectionError;
                EvLog (LogRetrying 2 3); EvSleep 1000;
                EvGetConnection; EvLog LogGetConnectionError;
                EvLog (LogRetrying 3 3); EvSleep 1000] |},
          Rejected ERR_RETRIES).
Proof. reflexivity. Qed.

(** C6, as stated, fails on an entry stored at clock reading 0: the flag
    is true, [lastUpdated] is set and one second has passed, but the
    test yields the number 0, which is falsy. *)
Lemma isCacheValid_epoch_stamp :
  jokesCache (updateCache [joke1] (serving emptyCache 0)) =
    {| data := [joke1]; lastUpdated := Some 0%Z; isValid := true |} /\
  (1000 - 0 < CACHE_DURATION)%Z /\
  isCacheValid (jokesCache (updateCache [joke1] (serving emptyCache 0))) 1000
    = Js.JNum 0 /\
  isCacheValid (jokesCache (updateCache [joke1] (serving emptyCache 0))) 1000
    <> Js.JBool true /\
  Js.truthy
    (isCacheValid (jokesCache (updateCache [joke1] (serving emptyCache 0))) 1000)
    = false.
Proof.
  split; [reflexivity |].
  split; [reflexivity |].
  split; [reflexivity |].
  split; [discriminate | reflexivity].
Qed.

(** C9, as stated, fails when the empty result is stored at clock
    reading 0: one second later, well within [CACHE_DURATION], the
    cache test yields 0, the handler goes back to the pool, and with the
    pool down it answers 503 instead of the cached empty list. *)
Lemma empty_result_epoch_not_served :
  getPost emptyThenDown (serving emptyCache 0) =
    Some ({| jokesCache :=
               {| data := []; lastUpdated := Some 0%Z; isValid := true |};
             clock := 0%Z;
             attempts := 1;
             trace := [EvGetConnection; EvAcquired; EvQuery; EvRelease;
                       EvUpdateCache] |},
          {| status := 200; cacheControl := Some "public, max-age=300";
             json := JsonRows [] |}) /\
  (1000 - 0 < CACHE_DURATION)%Z /\
  option_map snd
    (getPost emptyThenDown
       {| jokesCache :=
            {| data := []; lastUpdated := Some 0%Z; isValid := true |};
          clock := 1000%Z;
          attempts := 1;
          trace := [EvGetConnection; EvAcquired; EvQuery; EvRelease;
                    EvUpdateCache] |}) =
    Some {| status := 503; cacheControl := None;
            json := JsonError "Service temporarily unavailable"
                              "Please try again later" |} /\
  option_map (fun p => attempts (fst p))
    (getPost emptyThenDown
       {| jokesCache :=
            {| data := []; lastUpdated := Some 0%Z; isValid := true |};
          clock := 1000%Z;
          attempts := 1;
          trace := [EvGetConnection; EvAcquired; EvQuery; EvRelease;
                    EvUpdateCache] |}) = Some 4.
Proof.
  split; [reflexivity |].
  split; [reflexivity |].
  split; reflexivity.
Qed.

(** ** The general properties at sample inputs *)

Lemma stale_cache_served_witness :
  Js.truthy (isCacheValid (filledAt T0) (T0 + 400000)) = false /\
  all_fail poolDown (serving (filledAt T0) (T0 + 400000)) /\
  data (filledAt T0) <> [] /\
  exists s',
    getPost poolDown (serving (filledAt T0) (T0 + 400000)) =
    Some (s', {| status := 200;
                 cacheControl := Some "public, max-age=60";
                 json := JsonRows [joke1; joke2] |}) /\
    jokesCache s' = filledAt T0.
Proof.
  split; [reflexivity |].
  split; [intros j _; reflexivity |].
  split; [discriminate |].
  apply (stale_cache_served_on_terminal_failure Joke poolDown
           (serving (filledAt T0) (T0 + 400000))).
  - reflexivity.
  - intros j _. reflexivity.
  - discriminate.
Defined.

Lemma failure_visible_witness :
  exists s' r,
    getPost queryDown coldStart = Some (s', r) /\
    (Js.truthy (isCacheValid (jokesCache coldStart) (clock coldStart))
       = false /\
     data (jokesCache coldStart) = [] /\
     all_fail queryDown coldStart ->
     r = {| status := 503; cacheControl := None;
            json := JsonError "Service temporarily unavailable"
                              "Please try again later" |}) /\
    (~ (Js.truthy (isCacheValid (jokesCache coldStart) (clock coldStart))
          = false /\
        data (jokesCache coldStart) = [] /\
        all_fail queryDown coldStart) ->
     status r = 200 /\ exists rows, json r = JsonRows rows).
Proof.
  exact (failure_visible_only_on_empty_cache Joke queryDown coldStart).
Defined.

Lemma isCacheValid_witness :
  isCacheValid (filledAt T0) (T0 + 299999) = Js.JBool true /\
  Js.truthy (isCacheValid (filledAt T0) (T0 + 300000)) = false.
Proof.
  split.
  - apply (proj1 (isCacheValid_characterisation Joke (filledAt T0) (T0 + 299999))).
    split; [reflexivity |].
    exists T0. split; [reflexivity | split; [discriminate | reflexivity]].
  - apply (proj2 (proj2 (proj2
             (isCacheValid_characterisation Joke (filledAt T0) (T0 + 300000))))
             T0).
    + reflexivity.
    + discriminate.
Defined.

Lemma updateCache_only_mutator_witness :
  exists s' r,
    getPost recovering coldStart = Some (s', r) /\
    exists evs,
      trace s' = trace coldStart ++ evs /\
      ((jokesCache s' = jokesCache coldStart /\ count is_update evs = 0) \/
       (exists s1 jokes,
           fetchJokesFromDB recovering coldStart = Some (s1, Resolved jokes) /\
           jokesCache s1 = jokesCache coldStart /\
           s' = updateCache jokes s1 /\
           count is_update evs = 1)).
Proof.
  eexists. eexists. split; [reflexivity |].
  eapply (proj2 (updateCache_only_mutator Joke) recovering coldStart).
  reflexivity.
Defined.

Lemma handle_released_witness :
  gateway queryDown (attempts coldStart) <> ConnFail /\
  exists rest,
    trace (fst (attempt queryDown coldStart)) =
    trace coldStart
      ++ [EvGetConnection; EvAcquired; EvQuery; EvRelease] ++ rest /\
    count is_acquired rest = 0 /\ count is_release rest = 0.
Proof.
  split; [discriminate |].
  apply (proj1 (handle_released_exactly_once Joke) queryDown coldStart).
  discriminate.
Defined.

Lemma empty_result_witness :
  Js.truthy (isCacheValid (jokesCache coldStart) (clock coldStart))
    = false /\
  2 < MAX_RETRIES /\
  (forall j, j < 2 -> is_failure (gateway recoveringEmpty (attempts coldStart + j)) = true) /\
  gateway recoveringEmpty (attempts coldStart + 2) = QueryOk [] /\
  exists s1 t,
    getPost recoveringEmpty coldStart =
    Some (s1, {| status := 200; cacheControl := Some "public, max-age=300";
                 json := JsonRows [] |}) /\
    jokesCache s1 = {| data := []; lastUpdated := Some t; isValid := true |} /\
    (forall (w2 : World Joke) (s2 : State Joke),
        jokesCache s2 = jokesCache s1 ->
        t <> 0%Z ->
        (clock s2 - t < CACHE_DURATION)%Z ->
        getPost w2 s2 =
        Some (emit (EvLog LogServingFromCache) s2,
              {| status := 200; cacheControl := None;
                 json := JsonRows [] |})) /\
    (forall (w3 : World Joke) (s3 : State Joke),
        jokesCache s3 = jokesCache s1 ->
        (t + CACHE_DURATION <= clock s3)%Z ->
        all_fail w3 s3 ->
        exists s4,
          getPost w3 s3 =
          Some (s4, {| status := 503; cacheControl := None;
                       json := JsonError "Service temporarily unavailable"
                                         "Please try again later" |})).
Proof.
  assert (Hfail : forall j, j < 2 ->
            is_failure (gateway recoveringEmpty (attempts coldStart + j)) = true).
  { intros j Hj. destruct j as [| [| j]]; [reflexivity | reflexivity | lia]. }
  split; [reflexivity |].
  split; [unfold MAX_RETRIES; lia |].
  split; [exact Hfail |].
  split; [reflexivity |].
  apply (empty_result_not_a_fallback Joke recoveringEmpty coldStart 2).
  - reflexivity.
  - unfold MAX_RETRIES. lia.
  - exact Hfail.
  - reflexivity.
Defined.

Lemma cache_unchanged_witness :
  Js.truthy (isCacheValid (filledAt T0) (T0 + 400000)) = false /\
  all_fail queryDown (serving (filledAt T0) (T0 + 400000)) /\
  exists s' r evs,
    getPost queryDown (serving (filledAt T0) (T0 + 400000)) = Some (s', r) /\
    jokesCache s' = filledAt T0 /\
    trace s' = [] ++ evs /\
    count is_update evs = 0.
Proof.
  split; [reflexivity |].
  split; [intros j _; reflexivity |].
  apply (proj1 (cache_unchanged_on_terminal_failure Joke queryDown
                  (serving (filledAt T0) (T0 + 400000)))).
  - reflexivity.
  - intros j _. reflexivity.
Defined.

(** ** Sequences of requests *)

Section RunFacts.

Variable Row : Type.

Lemma attempt_success_or_failure (w : World Row) (s : State Row) :
  (is_failure (gateway w (attempts s)) = false /\
   exists results, snd (attempt w s) = Resolved results /\
                   gateway w (attempts s) = QueryOk results) \/
  (is_failure (gateway w (attempts s)) = true /\
   exists e, snd (attempt w s) = Rejected e).
Proof.
  destruct (attempt_spec Row w s) as (Hres & _). rewrite Hres.
  destruct (gateway w (attempts s)) as [| | results]; simpl; eauto.
Qed.

Lemma serve_total (w : World Row) (gaps : list Z) :
  forall s, exists s' rs,
      serve w gaps s = Some (s', rs) /\ List.length rs = List.length gaps.
Proof.
  induction gaps as [| gap rest IH]; intros s; simpl.
  - eauto.
  - destruct (getPost_total Row w (tick gap s)) as (s1 & r & ->).
    destruct (IH s1) as (s2 & rs & -> & Hlen).
    exists s2, (r :: rs). simpl. auto.
Qed.

(** *** Properties of the state that every stretch of code keeps *)

Section Kept.

Variable P : State Row -> Prop.

Hypothesis P_success :
  forall w s, P s -> is_failure (gateway w (attempts s)) = false ->
              P (fst (attempt w s)).
Hypothesis P_failure :
  forall w s k, P s -> is_failure (gateway w (attempts s)) = true ->
                P (on_catch k (fst (attempt w s))).
Hypothesis P_log :
  forall m s,
    match m with
    | LogServingFromCache | LogRouteError _ | LogServingStale => True
    | _ => False
    end ->
    P s -> P (emit (EvLog m) s).
Hypothesis P_update : forall d s, P s -> P (updateCache d s).
Hypothesis P_tick : forall gap s, P s -> P (tick gap s).

Lemma fetch_loop_keeps (w : World Row) (fuel : nat) :
  forall r s s' res,
    P s -> fetch_loop fuel r w s = Some (s', res) -> P s'.
Proof.
  induction fuel as [| fuel IH]; intros r s s' res HP H; [discriminate |].
  simpl in H. destruct (r <? MAX_RETRIES).
  - destruct (attempt_success_or_failure w s)
      as [(Hok & results & Hs & _) | (Hko & e & Hs)].
    + specialize (P_success w s HP Hok).
      destruct (attempt w s) as [s1 a]. simpl in *. subst a.
      inversion H; subst. exact P_success.
    + specialize (P_failure w s (S r) HP Hko).
      destruct (attempt w s) as [s1 a]. simpl in *. subst a.
      apply (IH _ _ _ _ P_failure H).
  - inversion H; subst. exact HP.
Qed.

Lemma getPost_keeps (w : World Row) (s s' : State Row) (r : Response Row) :
  P s -> getPost w s = Some (s', r) -> P s'.
Proof.
  intros HP H. unfold getPost in H.
  destruct (Js.truthy _).
  - inversion H; subst. apply P_log; [exact I | exact HP].
  - destruct (fetchJokesFromDB w s) as [[s1 res] |] eqn:Hf; [| discriminate].
    apply (fetch_loop_keeps w _ _ _ _ _ HP) in Hf.
    destruct res as [jokes | e].
    + inversion H; subst. apply P_update, Hf.
    + cbv zeta in H.
      assert (Hroute : P (emit (EvLog (LogRouteError e)) s1))
        by (apply P_log; [exact I | exact Hf]).
      destruct (0 <? _).
      * inversion H; subst. apply P_log; [exact I | exact Hroute].
      * destruct (String.eqb _ _); inversion H; subst; exact Hroute.
Qed.

Lemma serve_keeps (w : World Row) (gaps : list Z) :
  forall s s' rs, P s -> serve w gaps s = Some (s', rs) -> P s'.
Proof.
  induction gaps as [| gap rest IH]; intros s s' rs HP H; simpl in H.
  - inversion H; subst. exact HP.
  - destruct (getPost w (tick gap s)) as [[s1 r] |] eqn:Hg; [| discriminate].
    destruct (serve w rest s1) as [[s2 rs'] |] eqn:Hs; [| discriminate].
    inversion H; subst.
    apply (IH _ _ _ (getPost_keeps _ _ _ _ (P_tick gap s HP) Hg) Hs).
Qed.

End Kept.

(** *** The pool *)

Lemma pool_run_app (st : pool_state) (a b : list event) :
  pool_run st (a ++ b) =
  match pool_run st a with
  | Some st' => pool_run st' b
  | None => None
  end.
Proof.
  revert st. induction a as [| e a IH]; intros st; simpl; [reflexivity |].
  destruct (pool_step st e); [apply IH | reflexivity].
Qed.

Lemma pool_idle_after (evs : list event) (s s' : State Row) :
  trace s' = trace s ++ evs ->
  pool_run Idle evs = Some Idle ->
  pool_run Idle (trace s) = Some Idle ->
  pool_run Idle (trace s') = Some Idle.
Proof.
  intros Tr He Hs. rewrite Tr, pool_run_app, Hs. exact He.
Qed.

Lemma pool_idle_kept (w : World Row) (gaps : list Z) (s s' : State Row)
      (rs : list (Response Row)) :
  pool_run Idle (trace s) = Some Idle ->
  serve w gaps s = Some (s', rs) ->
  pool_run Idle (trace s') = Some Idle.
Proof.
  apply (serve_keeps (fun s => pool_run Idle (trace s) = Some Idle)).
  - intros w0 s0 HP Hok.
    destruct (attempt_spec Row w0 s0) as (_ & Tr & _).
    apply (pool_idle_after _ _ _ Tr); [| exact HP].
    destruct (gateway w0 (attempts s0)); try discriminate. reflexivity.
  - intros w0 s0 k HP Hko.
    destruct (attempt_spec Row w0 s0) as (_ & Tr & _).
    destruct (on_catch_spec Row k (fst (attempt w0 s0))) as (Tr' & _).
    rewrite Tr, <- app_assoc in Tr'.
    apply (pool_idle_after _ _ _ Tr'); [| exact HP].
    destruct (gateway w0 (attempts s0)); try discriminate; reflexivity.
  - intros m s0 _ HP. apply (pool_idle_after [EvLog m] s0); auto.
  - intros d s0 HP. apply (pool_idle_after [EvUpdateCache] s0); auto.
  - intros gap s0 HP. exact HP.
Qed.

(** X1. Over any sequence of requests the pool is used one connection at
    a time: at every point of the trace a connection is granted only
    when none is held, is queried once and then released, no delay and
    no cache assignment happens while one is held, and none is held
    when the last answer has been sent. *)
Theorem pool_used_one_connection_at_a_time
        (w : World Row) (gaps : list Z) (s : State Row) :
  pool_run Idle (trace s) = Some Idle ->
  exists s' rs,
    serve w gaps s = Some (s', rs) /\
    pool_run Idle (trace s') = Some Idle /\
    (forall pre post, trace s' = pre ++ post -> pool_run Idle pre <> None).
Proof.
  intros Hs.
  destruct (serve_total w gaps s) as (s' & rs & H & _).
  pose proof (pool_idle_kept _ _ _ _ _ Hs H) as Hs'.
  exists s', rs. repeat split; auto.
  intros pre post Tr Hn.
  rewrite Tr, pool_run_app, Hn in Hs'. discriminate.
Qed.

(** *** The books *)

Lemma books_after (evs : list event) (n : nat) (s s' : State Row) :
  trace s' = trace s ++ evs ->
  attempts s' = attempts s + n ->
  n = count is_get_connection evs ->
  count is_get_connection evs = count is_acquired evs + count is_conn_error evs ->
  count is_query evs = count is_acquired evs ->
  count is_release evs = count is_acquired evs ->
  count is_sleep evs = count is_conn_error evs + count is_query_error evs ->
  books_balance s -> books_balance s'.
Proof.
  intros Tr Ha Hn H1 H2 H3 H4 (B0 & B1 & B2 & B3 & B4).
  unfold books_balance. rewrite Tr. repeat rewrite count_app.
  repeat split; lia.
Qed.

Lemma books_kept (w : World Row) (gaps : list Z) (s s' : State Row)
      (rs : list (Response Row)) :
  books_balance s ->
  serve w gaps s = Some (s', rs) ->
  books_balance s'.
Proof.
  apply (serve_keeps books_balance).
  - intros w0 s0 HP Hok.
    destruct (attempt_spec Row w0 s0) as (_ & Tr & _ & Ha & _).
    apply (books_after _ 1 _ _ Tr); [lia | | | | | | exact HP];
      destruct (gateway w0 (attempts s0)); try discriminate; reflexivity.
  - intros w0 s0 k HP Hko.
    destruct (attempt_spec Row w0 s0) as (_ & Tr & _ & Ha & _).
    destruct (on_catch_spec Row k (fst (attempt w0 s0))) as (Tr' & _ & Ha' & _).
    rewrite Tr, <- app_assoc in Tr'. rewrite Ha in Ha'.
    apply (books_after _ 1 _ _ Tr'); [lia | | | | | | exact HP];
      destruct (gateway w0 (attempts s0)); try discriminate; reflexivity.
  - intros m s0 Hm HP.
    apply (books_after [EvLog m] 0 s0); auto;
      destruct m; try contradiction; reflexivity.
  - intros d s0 HP.
    apply (books_after [EvUpdateCache] 0 s0); auto.
  - intros gap s0 HP. exact HP.
Qed.

Lemma serve_pool_calls (w : World Row) (gaps : list Z) :
  forall s s' rs,
    serve w gaps s = Some (s', rs) ->
    attempts s <= attempts s' <= attempts s + MAX_RETRIES * List.length gaps.
Proof.
  induction gaps as [| gap rest IH]; intros s s' rs H; simpl in H.
  - inversion H; subst. simpl. lia.
  - destruct (getPost w (tick gap s)) as [[s1 r] |] eqn:Hg; [| discriminate].
    destruct (serve w rest s1) as [[s2 rs'] |] eqn:Hs; [| discriminate].
    inversion H; subst.
    pose proof (getPost_pool_calls Row _ _ _ _ Hg) as Hc.
    specialize (IH _ _ _ Hs).
    change (attempts (tick gap s)) with (attempts s) in Hc.
    cbn [List.length].
    destruct (Js.truthy _); lia.
Qed.

(** X2. Over any sequence of requests the trace accounts for every call
    of [pool.getConnection]: each was either granted or refused, each
    grant was queried once and released once, each failed attempt was
    followed by one delay, the counter [attempts] equals the number of
    calls, and no more than [MAX_RETRIES] calls are made per request. *)
Theorem pool_calls_accounted
        (w : World Row) (gaps : list Z) (s : State Row) :
  books_balance s ->
  exists s' rs,
    serve w gaps s = Some (s', rs) /\
    books_balance s' /\
    attempts s <= attempts s' <= attempts s + MAX_RETRIES * List.length gaps.
Proof.
  intros Hs.
  destruct (serve_total w gaps s) as (s' & rs & H & _).
  exists s', rs. split; [exact H |]. split.
  - apply (books_kept _ _ _ _ _ Hs H).
  - apply (serve_pool_calls _ _ _ _ _ H).
Qed.

(** *** The cache entry *)

Lemma assigned_or_initial_kept (w : World Row) (gaps : list Z)
      (s s' : State Row) (rs : list (Response Row)) :
  assigned_or_initial (jokesCache s) ->
  serve w gaps s = Some (s', rs) ->
  assigned_or_initial (jokesCache s').
Proof.
  apply (serve_keeps (fun s => assigned_or_initial (jokesCache s))).
  - intros w0 s0 HP _.
    destruct (attempt_spec Row w0 s0) as (_ & _ & Hc & _). rewrite Hc. exact HP.
  - intros w0 s0 k HP _.
    destruct (attempt_spec Row w0 s0) as (_ & _ & Hc & _).
    destruct (on_catch_spec Row k (fst (attempt w0 s0))) as (_ & Hc' & _).
    rewrite Hc', Hc. exact HP.
  - intros m s0 _ HP. exact HP.
  - intros d s0 _. right. exists d, (clock s0). reflexivity.
  - intros gap s0 HP. exact HP.
Qed.

Lemma flag_kept (w : World Row) (gaps : list Z)
      (s s' : State Row) (rs : list (Response Row)) :
  isValid (jokesCache s) = true ->
  serve w gaps s = Some (s', rs) ->
  isValid (jokesCache s') = true.
Proof.
  apply (serve_keeps (fun s => isValid (jokesCache s) = true)).
  - intros w0 s0 HP _.
    destruct (attempt_spec Row w0 s0) as (_ & _ & Hc & _). rewrite Hc. exact HP.
  - intros w0 s0 k HP _.
    destruct (attempt_spec Row w0 s0) as (_ & _ & Hc & _).
    destruct (on_catch_spec Row k (fst (attempt w0 s0))) as (_ & Hc' & _).
    rewrite Hc', Hc. exact HP.
  - intros m s0 _ HP. exact HP.
  - intros d s0 _. reflexivity.
  - intros gap s0 HP. exact HP.
Qed.

(** X3. Whatever requests are served, the cache entry is either the
    initial [{data: [], lastUpdated: null, isValid: false}] or an entry
    [{data, lastUpdated: t, isValid: true}] assigned by [updateCache]:
    the flag is true exactly when the timestamp is set, an entry whose
    flag is false holds no rows, and a flag that is true stays true. *)
Theorem cache_entry_initial_or_assigned
        (w : World Row) (gaps : list Z) (s : State Row) :
  assigned_or_initial (jokesCache s) ->
  exists s' rs,
    serve w gaps s = Some (s', rs) /\
    (isValid (jokesCache s') = true <-> lastUpdated (jokesCache s') <> None) /\
    (isValid (jokesCache s') = false -> data (jokesCache s') = []) /\
    (isValid (jokesCache s) = true -> isValid (jokesCache s') = true).
Proof.
  intros Hs.
  destruct (serve_total w gaps s) as (s' & rs & H & _).
  exists s', rs. split; [exact H |].
  pose proof (assigned_or_initial_kept _ _ _ _ _ Hs H) as [E | (d & t & E)];
    rewrite E; simpl.
  - repeat split; try congruence.
    intros Hv. apply (flag_kept _ _ _ _ _ Hv) in H. rewrite E in H.
    discriminate.
  - repeat split; congruence.
Qed.

(** *** Time *)

Lemma fetch_loop_clock (w : World Row) (fuel : nat) :
  forall r s s' res,
    fetch_loop fuel r w s = Some (s', res) ->
    exists n,
      attempts s' = attempts s + n /\
      clock s' =
        (clock s + latency_sum w (attempts s) n +
         RETRY_DELAY * Z.of_nat (match res with
                                 | Resolved _ => n - 1
                                 | Rejected _ => n
                                 end))%Z /\
      match res with Resolved _ => 1 <= n | Rejected _ => True end.
Proof.
  induction fuel as [| fuel IH]; intros r s s' res H; [discriminate |].
  simpl in H. destruct (r <? MAX_RETRIES).
  - destruct (attempt_spec Row w s) as (_ & _ & _ & Ha & Hc).
    destruct (attempt w s) as [s1 a]. simpl in Ha, Hc.
    destruct a as [results | e].
    + inversion H; subst. exists 1. simpl. unfold RETRY_DELAY. repeat split; lia.
    + destruct (on_catch_spec Row (S r) s1) as (_ & _ & Ha' & Hc').
      apply IH in H. destruct H as (n & Hn & Hclk & Hres).
      rewrite Ha', Ha in Hn, Hclk. rewrite Hc', Hc in Hclk.
      exists (S n). cbn [latency_sum]. unfold RETRY_DELAY in *.
      destruct res; repeat split; lia.
  - inversion H; subst. exists 0. simpl. unfold RETRY_DELAY. repeat split; lia.
Qed.

Lemma latency_sum_nonneg (w : World Row) (k : nat) :
  (forall n, (0 <= latency w n)%Z) ->
  forall n, (0 <= latency_sum w n k)%Z.
Proof.
  intros Hl. induction k as [| k IH]; intros n; simpl; [lia |].
  specialize (Hl n). specialize (IH (S n)). lia.
Qed.

(** An entry that fails the test keeps failing it as the clock moves
    forward. *)
Lemma expired_stays_expired (c : Cache Row) (now now' : Z) :
  (now <= now')%Z ->
  Js.truthy (isCacheValid c now) = false ->
  Js.truthy (isCacheValid c now') = false.
Proof.
  intros Hle. repeat rewrite truthy_isCacheValid.
  destruct (isValid c); simpl; [| reflexivity].
  destruct (lastUpdated c) as [t |]; [| reflexivity].
  destruct (t =? 0)%Z; simpl; [reflexivity |].
  intros H. apply Z.ltb_ge in H. apply Z.ltb_ge. lia.
Qed.

(** The answer after three failures, with its cost. *)
Lemma getPost_after_failures (w : World Row) (s : State Row) :
  Js.truthy (isCacheValid (jokesCache s) (clock s)) = false ->
  all_fail w s ->
  exists s',
    getPost w s =
      Some (s', match data (jokesCache s) with
                | [] => answerUnavailable
                | _ :: _ => answerStale (jokesCache s)
                end) /\
    jokesCache s' = jokesCache s /\
    attempts s' = attempts s + MAX_RETRIES /\
    clock s' = (clock s + latency_sum w (attempts s) MAX_RETRIES
                + 3 * RETRY_DELAY)%Z.
Proof.
  intros Hv Hall.
  destruct (fetch_all_fail Row w s Hall)
    as (s1 & evs & Hf & (_ & Hc & _) & _ & Hatt & _ & _ & Hget & _).
  destruct (fetch_loop_clock _ _ _ _ _ _ Hf) as (n & Hn & Hclk & _).
  assert (n = MAX_RETRIES) as -> by (unfold MAX_RETRIES in *; lia).
  destruct (data (jokesCache s)) as [| x l] eqn:Hd.
  - eexists. split; [| split; [| split]].
    + apply (getPost_error_path Row w s s1 Hv Hf). congruence.
    + exact Hc.
    + exact Hn.
    + cbn [clock emit]. rewrite Hclk. unfold MAX_RETRIES, RETRY_DELAY. lia.
  - eexists. split; [| split; [| split]].
    + rewrite (getPost_stale_path Row w s s1 Hv Hf) by congruence.
      rewrite Hc. reflexivity.
    + exact Hc.
    + exact Hn.
    + cbn [clock emit]. rewrite Hclk. unfold MAX_RETRIES, RETRY_DELAY. lia.
Qed.

(** X4. An answer that follows three failed attempts, whether the stale
    rows or the 503 body, is sent after the three attempts and three
    delays of [RETRY_DELAY]: when attempts take no negative time, at
    least 3000 ms after the request arrived. *)
Theorem answer_after_failures_takes_three_delays
        (w : World Row) (s : State Row) :
  Js.truthy (isCacheValid (jokesCache s) (clock s)) = false ->
  all_fail w s ->
  exists s' r,
    getPost w s = Some (s', r) /\
    clock s' = (clock s + latency_sum w (attempts s) 3 + 3000)%Z /\
    ((forall n, (0 <= latency w n)%Z) -> (clock s + 3000 <= clock s')%Z).
Proof.
  intros Hv Hall.
  destruct (getPost_after_failures w s Hv Hall) as (s' & H & _ & _ & Hclk).
  eexists. eexists. split; [exact H |]. split.
  - rewrite Hclk. reflexivity.
  - intros Hl. pose proof (latency_sum_nonneg w MAX_RETRIES Hl (attempts s)).
    rewrite Hclk. unfold RETRY_DELAY. lia.
Qed.

(** X5. When the cache test fails and the first attempt to succeed is
    the [S k]-th, with [k < MAX_RETRIES], the handler sends its rows
    with the fresh hint after [S k] calls of the pool and [k] delays,
    and the cache entry becomes those rows, flagged valid and stamped
    with the time the answer is sent (not the time the request
    arrived). *)
Theorem fetched_rows_sent_and_cached
        (w : World Row) (s : State Row) (k : nat) (jokes : list Row) :
  Js.truthy (isCacheValid (jokesCache s) (clock s)) = false ->
  k < MAX_RETRIES ->
  (forall j, j < k -> is_failure (gateway w (attempts s + j)) = true) ->
  gateway w (attempts s + k) = QueryOk jokes ->
  exists s',
    getPost w s = Some (s', answerFresh jokes) /\
    jokesCache s' =
      {| data := jokes; lastUpdated := Some (clock s'); isValid := true |} /\
    attempts s' = attempts s + S k /\
    clock s' = (clock s + latency_sum w (attempts s) (S k)
                + RETRY_DELAY * Z.of_nat k)%Z.
Proof.
  intros Hv Hk Hfail Hok.
  destruct (fetch_first_success Row w s k jokes Hk Hfail Hok)
    as (s1 & evs & Hf & _ & Hatt & _).
  destruct (fetch_loop_clock _ _ _ _ _ _ Hf) as (n & Hn & Hclk & _).
  assert (n = S k) as -> by lia.
  exists (updateCache jokes s1).
  split; [apply (getPost_fresh_path Row w s s1 jokes Hv Hf) |].
  split; [reflexivity |].
  split; [exact Hatt |].
  cbn [clock emit updateCache]. rewrite Hclk. f_equal. f_equal. f_equal. lia.
Qed.

(** *** What is sent and what is kept *)

(** X6. Whatever the handler sends agrees with the cache it leaves
    behind: rows are sent with status 200 and are the rows the cache
    holds after the call, and the error body is sent with status 503, no
    [Cache-Control] header and an empty cache. *)
Theorem answer_agrees_with_cache (w : World Row) (s : State Row) :
  exists s' r,
    getPost w s = Some (s', r) /\
    match json r with
    | JsonRows rows => status r = 200 /\ rows = data (jokesCache s')
    | JsonError _ _ =>
        status r = 503 /\ cacheControl r = None /\ data (jokesCache s') = []
    end.
Proof.
  destruct (getPost_total Row w s) as (s' & r & H).
  exists s', r. split; [exact H |].
  destruct (getPost_handled Row _ _ _ _ H) as (evs & Hh).
  destruct Hh as [Hv | s1 jokes evs Hv Hf Hp | s1 evs Hv Hf Hp Hd
                  | s1 evs Hv Hf Hp Hd]; simpl.
  - split; reflexivity.
  - split; reflexivity.
  - destruct Hp as ((_ & Hc & _) & _). rewrite Hc. split; reflexivity.
  - destruct Hp as ((_ & Hc & _) & _). rewrite Hc. repeat split. exact Hd.
Qed.

(** X7. The [Cache-Control] header of a 200 answer tells how it was
    produced.  [max-age=300]: some attempt of this call returned exactly
    the rows sent.  [max-age=60]: the cache test failed, three attempts
    failed, and the rows sent are the non-empty, untouched content of
    the cache.  No header: the cache test passed, the pool was not
    called and the rows sent are the untouched content of the cache. *)
Theorem header_tells_the_path (w : World Row) (s : State Row) :
  exists s' r,
    getPost w s = Some (s', r) /\
    (cacheControl r = Some "public, max-age=300" ->
     exists k jokes,
       k < MAX_RETRIES /\
       gateway w (attempts s + k) = QueryOk jokes /\
       json r = JsonRows jokes /\
       attempts s' = attempts s + S k) /\
    (cacheControl r = Some "public, max-age=60" ->
     Js.truthy (isCacheValid (jokesCache s) (clock s)) = false /\
     all_fail w s /\
     data (jokesCache s) <> [] /\
     json r = JsonRows (data (jokesCache s)) /\
     jokesCache s' = jokesCache s /\
     attempts s' = attempts s + MAX_RETRIES) /\
    (cacheControl r = None -> status r = 200 ->
     Js.truthy (isCacheValid (jokesCache s) (clock s)) = true /\
     json r = JsonRows (data (jokesCache s)) /\
     jokesCache s' = jokesCache s /\
     attempts s' = attempts s).
Proof.
  destruct (getPost_total Row w s) as (s' & r & H).
  exists s', r. split; [exact H |].
  destruct (getPost_handled Row _ _ _ _ H) as (evs & Hh).
  destruct Hh as [Hv | s1 jokes evs Hv Hf Hp | s1 evs Hv Hf Hp Hd
                  | s1 evs Hv Hf Hp Hd]; simpl.
  - repeat split; try discriminate; auto.
  - split; [| split]; try discriminate.
    intros _. destruct Hp as (_ & _ & Hatt & n & Hn & Hg & _ & Hget & _).
    exists n, jokes. repeat split; auto. lia.
  - split; [| split]; try discriminate.
    intros _. destruct Hp as ((_ & Hc & _) & _ & Hatt & _ & _ & Hget & _).
    repeat split; auto.
    + apply (fetch_rejected_all_fail Row _ _ _ _ Hf).
    + rewrite Hatt, Hget. lia.
  - repeat split; discriminate.
Qed.

(** *** Runs of hits and runs of failures *)

Lemma total_nonneg (gaps : list Z) :
  Forall (fun g => (0 <= g)%Z) gaps -> (0 <= total gaps)%Z.
Proof.
  induction 1 as [| g rest Hg _ IH]; simpl; [lia |].
  unfold total in *. simpl. lia.
Qed.

(** X8. From an entry stamped at a time [t] other than 0, requests
    arriving one after the other while less than [CACHE_DURATION] has
    passed since [t] are all answered with the cached rows and no
    header; none of them calls the pool, and the entry stays as it
    is. *)
Theorem requests_within_ttl_hit_the_cache
        (w : World Row) (gaps : list Z) (d : list Row) (t : Z) :
  forall s,
    jokesCache s = {| data := d; lastUpdated := Some t; isValid := true |} ->
    t <> 0%Z ->
    Forall (fun g => (0 <= g)%Z) gaps ->
    (clock s + total gaps - t < CACHE_DURATION)%Z ->
    exists s',
      serve w gaps s =
        Some (s', repeat (answerFromCache (jokesCache s)) (List.length gaps)) /\
      jokesCache s' = jokesCache s /\
      attempts s' = attempts s /\
      clock s' = (clock s + total gaps)%Z.
Proof.
  induction gaps as [| gap rest IH]; intros s Hc Ht Hg Hlt.
  - exists s. simpl. unfold total. simpl. repeat split; auto. lia.
  - inversion Hg as [| g l Hgap Hrest]; subst.
    pose proof (total_nonneg rest Hrest) as Hnn.
    change (total (gap :: rest)) with (gap + total rest)%Z in *.
    assert (Hv : Js.truthy (isCacheValid (jokesCache (tick gap s))
                                         (clock (tick gap s))) = true).
    { cbn [jokesCache clock tick]. rewrite truthy_isCacheValid, Hc. simpl.
      apply Z.eqb_neq in Ht. rewrite Ht. simpl. apply Z.ltb_lt. lia. }
    destruct (IH (emit (EvLog LogServingFromCache) (tick gap s)))
      as (s' & Hs & Hc' & Ha' & Hk'); auto.
    { cbn [clock emit tick]. lia. }
    exists s'. cbn [serve]. rewrite (getPost_fast_path Row w _ Hv).
    rewrite Hs. repeat split; auto.
    cbn [clock emit tick] in Hk'. lia.
Qed.

(** X9. An outage with an expired or empty cache: while the pool only
    fails and time does not run backwards, every request makes
    [MAX_RETRIES] attempts and waits three delays, every request gets
    the same answer (the stale rows when the cache holds rows, the 503
    body when it holds none), and the cache entry never changes. *)
Theorem outage_every_request_retries
        (w : World Row) (gaps : list Z) :
  forall s,
    (forall n, attempts s <= n -> is_failure (gateway w n) = true) ->
    (forall n, (0 <= latency w n)%Z) ->
    Forall (fun g => (0 <= g)%Z) gaps ->
    Js.truthy (isCacheValid (jokesCache s) (clock s)) = false ->
    exists s',
      serve w gaps s =
        Some (s', repeat (match data (jokesCache s) with
                          | [] => answerUnavailable
                          | _ :: _ => answerStale (jokesCache s)
                          end) (List.length gaps)) /\
      jokesCache s' = jokesCache s /\
      attempts s' = attempts s + MAX_RETRIES * List.length gaps /\
      (clock s + 3000 * Z.of_nat (List.length gaps) <= clock s')%Z.
Proof.
  induction gaps as [| gap rest IH]; intros s Hdead Hlat Hg Hv.
  - exists s. simpl. repeat split; auto; lia.
  - inversion Hg as [| g l Hgap Hrest]; subst.
    assert (Hv1 : Js.truthy (isCacheValid (jokesCache (tick gap s))
                                          (clock (tick gap s))) = false).
    { cbn [jokesCache clock tick].
      apply (expired_stays_expired _ (clock s)); [lia | exact Hv]. }
    assert (Hall : all_fail w (tick gap s)).
    { intros j _. apply Hdead. cbn [attempts tick]. lia. }
    destruct (getPost_after_failures w (tick gap s) Hv1 Hall)
      as (s1 & H1 & Hc1 & Ha1 & Hk1).
    cbn [jokesCache attempts clock tick] in *.
    pose proof (latency_sum_nonneg w MAX_RETRIES Hlat (attempts s)) as Hnn.
    destruct (IH s1) as (s' & Hs & Hc' & Ha' & Hk'); auto.
    { intros n Hn. apply Hdead. lia. }
    { rewrite Hc1. apply (expired_stays_expired _ (clock s)); [| exact Hv].
      unfold RETRY_DELAY in Hk1. lia. }
    exists s'. cbn [serve]. rewrite H1, Hs, Hc1.
    repeat split.
    + congruence.
    + rewrite Ha', Ha1. cbn [List.length]. lia.
    + cbn [List.length]. unfold RETRY_DELAY in Hk1. lia.
Qed.

End RunFacts.

(** ** The properties of request sequences at sample inputs *)

Lemma pool_used_witness :
  pool_run Idle (trace coldStart) = Some Idle /\
  exists s' rs,
    serve recovering [0; 1000; 400000]%Z coldStart = Some (s', rs) /\
    pool_run Idle (trace s') = Some Idle /\
    (forall pre post, trace s' = pre ++ post -> pool_run Idle pre <> None).
Proof.
  split; [reflexivity |].
  apply (pool_used_one_connection_at_a_time Joke recovering
           [0; 1000; 400000]%Z coldStart).
  reflexivity.
Defined.

Lemma pool_calls_witness :
  books_balance coldStart /\
  exists s' rs,
    serve queryDown [0; 1000]%Z coldStart = Some (s', rs) /\
    books_balance s' /\
    attempts coldStart <= attempts s' <= attempts coldStart + MAX_RETRIES * 2.
Proof.
  assert (H : books_balance coldStart) by (repeat split).
  split; [exact H |].
  apply (pool_calls_accounted Joke queryDown [0; 1000]%Z coldStart H).
Defined.

Lemma cache_entry_witness :
  assigned_or_initial (jokesCache coldStart) /\
  exists s' rs,
    serve recovering [0; 400000]%Z coldStart = Some (s', rs) /\
    (isValid (jokesCache s') = true <-> lastUpdated (jokesCache s') <> None) /\
    (isValid (jokesCache s') = false -> data (jokesCache s') = []) /\
    (isValid (jokesCache coldStart) = true -> isValid (jokesCache s') = true).
Proof.
  assert (H : assigned_or_initial (jokesCache coldStart)) by (left; reflexivity).
  split; [exact H |].
  apply (cache_entry_initial_or_assigned Joke recovering [0; 400000]%Z
           coldStart H).
Defined.

Lemma answer_after_failures_witness :
  Js.truthy (isCacheValid (filledAt T0) (T0 + 400000)) = false /\
  all_fail poolDown (serving (filledAt T0) (T0 + 400000)) /\
  exists s' r,
    getPost poolDown (serving (filledAt T0) (T0 + 400000)) = Some (s', r) /\
    clock s' = (T0 + 400000 + latency_sum poolDown 0 3 + 3000)%Z /\
    ((forall n, (0 <= latency poolDown n)%Z) ->
     (T0 + 400000 + 3000 <= clock s')%Z).
Proof.
  split; [reflexivity |].
  split; [intros j _; reflexivity |].
  apply (answer_after_failures_takes_three_delays Joke poolDown
           (serving (filledAt T0) (T0 + 400000))).
  - reflexivity.
  - intros j _. reflexivity.
Defined.

Lemma fetched_rows_witness :
  Js.truthy (isCacheValid (jokesCache coldStart) (clock coldStart)) = false /\
  2 < MAX_RETRIES /\
  (forall j, j < 2 ->
             is_failure (gateway recovering (attempts coldStart + j)) = true) /\
  gateway recovering (attempts coldStart + 2) = QueryOk [joke1; joke2] /\
  exists s',
    getPost recovering coldStart = Some (s', answerFresh [joke1; joke2]) /\
    jokesCache s' =
      {| data := [joke1; joke2]; lastUpdated := Some (clock s');
         isValid := true |} /\
    attempts s' = attempts coldStart + 3 /\
    clock s' = (clock coldStart + latency_sum recovering (attempts coldStart) 3
                + RETRY_DELAY * Z.of_nat 2)%Z.
Proof.
  assert (Hfail : forall j, j < 2 ->
            is_failure (gateway recovering (attempts coldStart + j)) = true).
  { intros j Hj. destruct j as [| [| j]]; [reflexivity | reflexivity | lia]. }
  split; [reflexivity |].
  split; [unfold MAX_RETRIES; lia |].
  split; [exact Hfail |].
  split; [reflexivity |].
  apply (fetched_rows_sent_and_cached Joke recovering coldStart 2
           [joke1; joke2]).
  - reflexivity.
  - unfold MAX_RETRIES. lia.
  - exact Hfail.
  - reflexivity.
Defined.

Lemma header_tells_witness :
  exists s' r,
    getPost poolDown (serving (filledAt T0) (T0 + 400000)) = Some (s', r) /\
    (cacheControl r = Some "public, max-age=300" ->
     exists k jokes,
       k < MAX_RETRIES /\
       gateway poolDown (0 + k) = QueryOk jokes /\
       json r = JsonRows jokes /\
       attempts s' = 0 + S k) /\
    (cacheControl r = Some "public, max-age=60" ->
     Js.truthy (isCacheValid (filledAt T0) (T0 + 400000)) = false /\
     all_fail poolDown (serving (filledAt T0) (T0 + 400000)) /\
     data (filledAt T0) <> [] /\
     json r = JsonRows (data (filledAt T0)) /\
     jokesCache s' = filledAt T0 /\
     attempts s' = 0 + MAX_RETRIES) /\
    (cacheControl r = None -> status r = 200 ->
     Js.truthy (isCacheValid (filledAt T0) (T0 + 400000)) = true /\
     json r = JsonRows (data (filledAt T0)) /\
     jokesCache s' = filledAt T0 /\
     attempts s' = 0).
Proof.
  exact (header_tells_the_path Joke poolDown
           (serving (filledAt T0) (T0 + 400000))).
Defined.

Lemma requests_within_ttl_witness :
  jokesCache (serving (filledAt T0) T0) =
    {| data := [joke1; joke2]; lastUpdated := Some T0; isValid := true |} /\
  T0 <> 0%Z /\
  Forall (fun g => (0 <= g)%Z) [1000; 200000; 98999]%Z /\
  (clock (serving (filledAt T0) T0) + total [1000; 200000; 98999] - T0
   < CACHE_DURATION)%Z /\
  exists s',
    serve poolDown [1000; 200000; 98999]%Z (serving (filledAt T0) T0) =
      Some (s', repeat (answerFromCache (filledAt T0)) 3) /\
    jokesCache s' = filledAt T0 /\
    attempts s' = 0 /\
    clock s' = (T0 + total [1000; 200000; 98999])%Z.
Proof.
  assert (Hg : Forall (fun g => (0 <= g)%Z) [1000; 200000; 98999]%Z).
  { repeat constructor; discriminate. }
  split; [reflexivity |].
  split; [discriminate |].
  split; [exact Hg |].
  split; [reflexivity |].
  apply (requests_within_ttl_hit_the_cache Joke poolDown
           [1000; 200000; 98999]%Z [joke1; joke2] T0
           (serving (filledAt T0) T0)).
  - reflexivity.
  - discriminate.
  - exact Hg.
  - reflexivity.
Defined.

Lemma outage_witness :
  (forall n, attempts (serving (filledAt T0) (T0 + 400000)) <= n ->
             is_failure (gateway queryDown n) = true) /\
  (forall n, (0 <= latency queryDown n)%Z) /\
  Forall (fun g => (0 <= g)%Z) [0; 5000]%Z /\
  Js.truthy (isCacheValid (filledAt T0) (T0 + 400000)) = false /\
  exists s',
    serve queryDown [0; 5000]%Z (serving (filledAt T0) (T0 + 400000)) =
      Some (s', repeat (answerStale (filledAt T0)) 2) /\
    jokesCache s' = filledAt T0 /\
    attempts s' = 0 + MAX_RETRIES * 2 /\
    (T0 + 400000 + 3000 * Z.of_nat 2 <= clock s')%Z.
Proof.
  assert (Hg : Forall (fun g => (0 <= g)%Z) [0; 5000]%Z).
  { repeat constructor; discriminate. }
  split; [intros n _; reflexivity |].
  split; [intros n; discriminate |].
  split; [exact Hg |].
  split; [reflexivity |].
  apply (outage_every_request_retries Joke queryDown [0; 5000]%Z
           (serving (filledAt T0) (T0 + 400000))).
  - intros n _. reflexivity.
  - intros n. discriminate.
  - exact Hg.
  - reflexivity.
Defined.

(** ** The page *)

Lemma iter_next_keeps (k : nat) (u : Ui) :
  dt (Nat.iter k handleNextJoke u) = dt u /\
  error (Nat.iter k handleNextJoke u) = error u /\
  loading (Nat.iter k handleNextJoke u) = loading u.
Proof.
  induction k as [| k IH]; simpl; [auto |].
  destruct IH as (Hd & He & Hl). auto.
Qed.

(** [k] presses on a list of [n > 0] jokes move an index [i] of the
    list to [(i + k) mod n]. *)
Lemma iter_next_index (k : nat) (u : Ui) (i : Z) :
  (0 <= i < Z.of_nat (List.length (dt u)))%Z ->
  currentIndex u = Num i ->
  currentIndex (Nat.iter k handleNextJoke u) =
  Num ((i + Z.of_nat k) mod Z.of_nat (List.length (dt u))).
Proof.
  intros Hi Hc. induction k as [| k IH].
  - simpl. rewrite Z.add_0_r, Z.mod_small by exact Hi. exact Hc.
  - rewrite Nat.iter_succ. unfold handleNextJoke at 1.
    cbn [currentIndex setCurrentIndex].
    rewrite IH. destruct (iter_next_keeps k u) as (Hd & _). rewrite Hd.
    set (n := Z.of_nat (List.length (dt u))) in *.
    cbn [js_add js_rem].
    destruct (Z.eqb_spec n 0) as [E | E]; [lia |].
    f_equal.
    pose proof (Z.mod_pos_bound (i + Z.of_nat k) n) as Hb.
    rewrite Z.rem_mod_nonneg by lia.
    rewrite Z.add_mod_idemp_l by lia.
    f_equal. lia.
Qed.

Lemma js_index_in_range {A : Type} (l : list A) (z : Z) :
  (0 <= z < Z.of_nat (List.length l))%Z ->
  exists x, js_index l (Num z) = Some x /\ nth_error l (Z.to_nat z) = Some x.
Proof.
  intros Hz. unfold js_index.
  destruct (Z.ltb_spec z 0) as [L | L]; [lia |].
  destruct (nth_error l (Z.to_nat z)) as [x |] eqn:E; [eauto |].
  apply nth_error_None in E. lia.
Qed.

Lemma js_index_out_of_range {A : Type} (l : list A) (z : Z) :
  (Z.of_nat (List.length l) <= z)%Z -> js_index l (Num z) = None.
Proof.
  intros Hz. unfold js_index.
  destruct (Z.ltb_spec z 0) as [L | L]; [reflexivity |].
  apply nth_error_None. lia.
Qed.

(** X10. While the list does not change, the button walks through it in
    a cycle and the page always renders: from an index [i] of a list of
    [n > 0] jokes, [k] presses show the joke at [(i + k) mod n]. *)
Theorem next_walks_the_list_in_a_cycle (u : Ui) (i : Z) (k : nat) :
  loading u = false ->
  (0 <= i < Z.of_nat (List.length (dt u)))%Z ->
  currentIndex u = Num i ->
  exists j,
    nth_error (dt u)
      (Z.to_nat ((i + Z.of_nat k) mod Z.of_nat (List.length (dt u)))) = Some j /\
    render (Nat.iter k handleNextJoke u) =
      ViewJoke (banner_of (error u)) (title j) (body j).
Proof.
  intros Hl Hi Hc.
  pose proof (iter_next_index k u i Hi Hc) as Hk.
  destruct (iter_next_keeps k u) as (Hd & He & Hl').
  set (n := Z.of_nat (List.length (dt u))) in *.
  assert (Hb : (0 <= (i + Z.of_nat k) mod n < n)%Z)
    by (apply Z.mod_pos_bound; lia).
  destruct (js_index_in_range (dt u) _ Hb) as (j & Hj & Hn).
  exists j. split; [exact Hn |].
  unfold render. rewrite Hl', Hl, Hd, He, Hk, Hj.
  destruct (Nat.ltb_spec 0 (List.length (dt u))) as [L | L]; [reflexivity |].
  subst n. lia.
Qed.

(** X11. With an empty list the button changes nothing that is shown:
    after any number of presses the page still says that there is no
    data, with the same banner.  The index, though, is NaN after the
    first press and stays NaN, so that no list set afterwards can be
    rendered. *)
Theorem next_on_empty_list (u : Ui) (k : nat) :
  loading u = false ->
  dt u = [] ->
  render (Nat.iter k handleNextJoke u) = ViewNoData (banner_of (error u)) /\
  currentIndex (Nat.iter (S k) handleNextJoke u) = NaN /\
  (forall (rows : list Joke) (k' : nat),
      rows <> [] ->
      render (Nat.iter k' handleNextJoke
                (setDt rows (Nat.iter (S k) handleNextJoke u)))
      = ViewTypeError).
Proof.
  intros Hl Hd.
  assert (Hnan : forall n, currentIndex (Nat.iter (S n) handleNextJoke u) = NaN).
  { induction n as [| n IH].
    - simpl. unfold handleNextJoke. simpl. rewrite Hd. simpl.
      destruct (currentIndex u); reflexivity.
    - rewrite Nat.iter_succ. unfold handleNextJoke at 1.
      cbn [currentIndex setCurrentIndex]. rewrite IH. reflexivity. }
  split; [| split].
  - destruct (iter_next_keeps k u) as (Hd' & He & Hl').
    unfold render. rewrite Hl', Hl, Hd', Hd, He. reflexivity.
  - apply Hnan.
  - intros rows k' Hrows.
    set (u1 := setDt rows (Nat.iter (S k) handleNextJoke u)).
    assert (Hc1 : currentIndex u1 = NaN) by (apply Hnan).
    assert (Hl1 : loading u1 = false).
    { destruct (iter_next_keeps (S k) u) as (_ & _ & Hl'). exact (eq_trans Hl' Hl). }
    assert (Hnan' : currentIndex (Nat.iter k' handleNextJoke u1) = NaN).
    { induction k' as [| k' IH]; [exact Hc1 |].
      rewrite Nat.iter_succ. unfold handleNextJoke at 1.
      cbn [currentIndex setCurrentIndex]. rewrite IH. reflexivity. }
    destruct (iter_next_keeps k' u1) as (Hd' & _ & Hl').
    unfold render. rewrite Hl', Hl1, Hd', Hnan'.
    change (dt u1) with rows.
    destruct rows; [congruence | reflexivity].
Qed.

Lemma resolves_2xx (code : nat) (content : payload Joke) :
  200 <= code < 300 -> resolves (Answered code content) = Some content.
Proof.
  intros (Hlo & Hhi). unfold resolves.
  destruct (Nat.leb_spec 200 code); [| lia].
  destruct (Nat.ltb_spec code 300); [reflexivity | lia].
Qed.

Lemma iter_next_nan_on_empty (k : nat) (u : Ui) :
  dt u = [] -> currentIndex (Nat.iter (S k) handleNextJoke u) = NaN.
Proof.
  intros Hd. induction k as [| k IH].
  - simpl. unfold handleNextJoke. simpl. rewrite Hd. simpl.
    destruct (currentIndex u); reflexivity.
  - rewrite Nat.iter_succ. unfold handleNextJoke at 1.
    cbn [currentIndex setCurrentIndex]. rewrite IH. reflexivity.
Qed.

(** What a visit that receives rows leaves behind. *)
Lemma load_with_rows (st : Storage) (rows : list Joke) (p code : nat) :
  st <> Some Unparsable ->
  rows <> [] ->
  200 <= code < 300 ->
  exists u2,
    loadInitialData true (Answered code (JsonRows rows)) p initialUi st =
      (setLoading false (setError None (setDt rows u2)),
       Some (Stringified rows)) /\
    currentIndex u2 =
      match st, p with
      | Some (Stringified (x :: d)), _ =>
          Num (Z.of_nat (p mod List.length (x :: d)))
      | Some (Stringified []), S _ => NaN
      | _, _ => Num 0
      end.
Proof.
  intros Hst Hrows Hcode.
  unfold loadInitialData, fetchData.
  rewrite (resolves_2xx _ _ Hcode).
  destruct rows as [| r0 rows]; [congruence |].
  cbn [List.length Nat.ltb Nat.leb].
  destruct st as [[d |] |]; [| congruence |].
  - cbn [loading setLoading setDt]. eexists. split; [reflexivity |].
    destruct d as [| x d].
    + destruct p as [| p]; [reflexivity |].
      apply iter_next_nan_on_empty. reflexivity.
    + rewrite (iter_next_index p (setLoading false (setDt (x :: d) initialUi)) 0).
      * cbn [dt setLoading setDt]. rewrite Z.add_0_l, Nat2Z.inj_mod. reflexivity.
      * cbn [dt setLoading setDt List.length]. lia.
      * reflexivity.
  - cbn [loading initialUi]. eexists. split; [reflexivity |].
    destruct p; reflexivity.
Qed.

Lemma js_index_of_nat {A : Type} (l : list A) (q : nat) :
  js_index l (Num (Z.of_nat q)) = nth_error l q.
Proof.
  unfold js_index.
  destruct (Z.ltb_spec (Z.of_nat q) 0) as [L | L]; [lia |].
  rewrite Nat2Z.id. reflexivity.
Qed.

(** X12. The index survives a change of the list.  When the page first
    shows [m > 0] stored jokes, the button is pressed [p] times while
    the request is pending, and the server then answers with a
    non-empty list, the page shows the joke number [p mod m] of the new
    list; when the new list has no such joke, that is when it has at
    most [p mod m] jokes, rendering throws a TypeError. *)
Theorem index_kept_when_list_replaced
        (d rows : list Joke) (p code : nat) :
  d <> [] ->
  rows <> [] ->
  200 <= code < 300 ->
  render (fst (loadInitialData true (Answered code (JsonRows rows)) p
                               initialUi (Some (Stringified d)))) =
    match nth_error rows (p mod List.length d) with
    | Some j => ViewJoke None (title j) (body j)
    | None => ViewTypeError
    end /\
  (List.length rows <= p mod List.length d ->
   render (fst (loadInitialData true (Answered code (JsonRows rows)) p
                                initialUi (Some (Stringified d)))) =
     ViewTypeError).
Proof.
  intros Hd Hrows Hcode.
  assert (Hst : Some (Stringified d) <> Some Unparsable) by discriminate.
  destruct (load_with_rows _ rows p code Hst Hrows Hcode) as (u2 & -> & Hi).
  destruct d as [| x d]; [congruence |].
  assert (E : render (setLoading false (setError None (setDt rows u2))) =
              match nth_error rows (p mod List.length (x :: d)) with
              | Some j => ViewJoke None (title j) (body j)
              | None => ViewTypeError
              end).
  { unfold render. cbn [fst loading dt currentIndex error setLoading setError setDt].
    rewrite Hi, js_index_of_nat.
    destruct rows as [| r0 rows]; [congruence |]. reflexivity. }
  cbn [fst]. split; [exact E |].
  intros Hle. rewrite E.
  apply nth_error_None in Hle. rewrite Hle. reflexivity.
Qed.



(** ** The properties of the page at sample inputs *)

Lemma next_walks_witness :
  loading {| dt := [joke1; joke2]; currentIndex := Num 1;
             error := None; loading := false |} = false /\
  (0 <= 1 < Z.of_nat (List.length [joke1; joke2]))%Z /\
  exists j,
    nth_error [joke1; joke2]
      (Z.to_nat ((1 + Z.of_nat 3) mod Z.of_nat 2)) = Some j /\
    render (Nat.iter 3 handleNextJoke
              {| dt := [joke1; joke2]; currentIndex := Num 1;
                 error := None; loading := false |}) =
      ViewJoke None (title j) (body j).
Proof.
  split; [reflexivity |].
  split; [simpl; lia |].
  apply (next_walks_the_list_in_a_cycle
           {| dt := [joke1; joke2]; currentIndex := Num 1;
              error := None; loading := false |} 1 3).
  - reflexivity.
  - simpl. lia.
  - reflexivity.
Defined.

Lemma next_on_empty_witness :
  loading (setLoading false initialUi) = false /\
  dt (setLoading false initialUi) = [] /\
  render (Nat.iter 2 handleNextJoke (setLoading false initialUi)) =
    ViewNoData None /\
  currentIndex (Nat.iter 3 handleNextJoke (setLoading false initialUi)) = NaN /\
  (forall (rows : list Joke) (k' : nat),
      rows <> [] ->
      render (Nat.iter k' handleNextJoke
                (setDt rows (Nat.iter 3 handleNextJoke
                               (setLoading false initialUi))))
      = ViewTypeError).
Proof.
  split; [reflexivity |].
  split; [reflexivity |].
  apply (next_on_empty_list (setLoading false initialUi) 2); reflexivity.
Defined.

Lemma index_kept_witness :
  [joke1; joke2] <> [] /\
  [joke2] <> [] /\
  200 <= 200 < 300 /\
  render (fst (loadInitialData true (Answered 200 (JsonRows [joke2])) 1
                               initialUi (Some (Stringified [joke1; joke2])))) =
    match nth_error [joke2] (1 mod 2) with
    | Some j => ViewJoke None (title j) (body j)
    | None => ViewTypeError
    end /\
  (1 <= 1 mod 2 ->
   render (fst (loadInitialData true (Answered 200 (JsonRows [joke2])) 1
                                initialUi (Some (Stringified [joke1; joke2])))) =
     ViewTypeError).
Proof.
  split; [discriminate |].
  split; [discriminate |].
  split; [lia |].
  apply (index_kept_when_list_replaced [joke1; joke2] [joke2] 1 200).
  - discriminate.
  - discriminate.
  - lia.
Defined.


